(** * Grocery purchase proposal: threshold escalation, query parsing and
      recommendation lookup of [purch_proposal.py]

    The development embeds the three functions of the program that carry its
    logic:

    - [generate_association_rules]: the two escalation ladders around the
      mlxtend calls [apriori] and [association_rules], inside one
      [try ... except Exception];
    - [parse_input_items]: splitting, trimming, case folding and capping of
      the query line;
    - [find_best_recommendation]: the exact-antecedent lookup with its
      first-item fallback.

    Python values are modelled as the interpreter has them: a [float] is an
    IEEE 754 binary64 number (Rocq's primitive [float]), a [frozenset] is a
    collection compared by content whose iteration order is some fixed
    sequence, an exception either is an instance of [Exception] or is not.
    The mlxtend functions are not part of the program; they are parameters
    of the embedding.

    Besides these, [load_groceries_data] and [main] with its interactive
    loop are embedded, the pandas and mlxtend calls of the loader again as
    parameters.  Console output is modelled for the loop only, as the
    sequence of messages printed. *)

From Stdlib Require Import Bool Arith PArith ZArith Lia List.
From Stdlib Require Import Ascii String.
From Stdlib Require Import Floats.
Import ListNotations.

Set Warnings "-inexact-float".

(* ================================================================= *)
(** * Configuration constants (lines 8-14) *)

Definition MIN_SUPPORT_PRIMARY : float := 0.005%float.
Definition MIN_SUPPORT_SECONDARY : float := 0.002%float.
Definition MIN_SUPPORT_MINIMUM : float := 0.001%float.
Definition MIN_CONFIDENCE_PRIMARY : float := 0.01%float.
Definition MIN_CONFIDENCE_SECONDARY : float := 0.005%float.
Definition MIN_CONFIDENCE_MINIMUM : float := 0.001%float.

(** The order in which the program tries the constants. *)
Definition support_thresholds : list float :=
  [MIN_SUPPORT_PRIMARY; MIN_SUPPORT_SECONDARY; MIN_SUPPORT_MINIMUM].

Definition confidence_thresholds : list float :=
  [MIN_CONFIDENCE_PRIMARY; MIN_CONFIDENCE_SECONDARY; MIN_CONFIDENCE_MINIMUM].

(** [strictly_decreasing l]: every element is [>] its successor, with
    Python's [<] on floats. *)
Fixpoint strictly_decreasing (l : list float) : bool :=
  match l with
  | x :: (y :: _) as tl => (y <? x)%float && strictly_decreasing tl
  | _ => true
  end.

(* ================================================================= *)
(** * Python run-time values *)

(** An exception in flight.  [except Exception] catches the instances of
    [Exception] (ValueError, KeyError, IndexError, MemoryError, ...) and lets
    the others through (KeyboardInterrupt, SystemExit). *)
Inductive exn : Type :=
| Exception (what : string)
| BaseException (what : string).

Inductive result (A : Type) : Type :=
| Return (a : A)
| Raise (e : exn).
Arguments Return {A} a.
Arguments Raise {A} e.

Definition item := string.

(** A [frozenset] of items, as the sequence [list(s)] of its elements.
    Equality of two sets ignores that order. *)
Definition frozenset := list item.

Definition mem (x : item) (s : frozenset) : bool := existsb (String.eqb x) s.

Definition issubset (a b : frozenset) : bool := forallb (fun x => mem x b) a.

(** [a == b] on frozensets. *)
Definition frozenset_eqb (a b : frozenset) : bool := issubset a b && issubset b a.

(** [frozenset(l)]: duplicates dropped.  Which iteration order Python gives
    the result is not used by the program: the set is only compared. *)
Definition mk_frozenset (l : list item) : frozenset := nodup string_dec l.

(** Extensional equality of two collections of items. *)
Definition set_equal (a b : list item) : Prop := forall x, In x a <-> In x b.

(** [df.empty] for a frame given by its rows. *)
Definition empty {A : Type} (rows : list A) : bool :=
  match rows with
  | [] => true
  | _ :: _ => false
  end.

(* ================================================================= *)
(** * Frames *)

(** One-hot encoded transactions, the argument of [apriori]. *)
Record transactions : Type := {
  columns : list item;
  rows : list (list bool)
}.

(** A row of the frame [apriori] returns. *)
Record itemset_row : Type := {
  support : float;
  itemsets : frozenset
}.

(** A row of the frame [association_rules] returns; of its columns the
    program reads these three. *)
Record rule : Type := {
  antecedents : frozenset;
  consequents : frozenset;
  confidence : float
}.

(** What mlxtend guarantees of each rule it emits: both sides are non-empty
    sets and the confidence is a number. *)
Definition rule_wf (r : rule) : Prop :=
  antecedents r <> [] /\ consequents r <> [] /\ is_nan (confidence r) = false.

Definition rule_set_wf (rules : list rule) : Prop := Forall rule_wf rules.

(* ================================================================= *)
(** * Traced computations

    A computation extends a chronological trace of the operations whose
    occurrence the specification talks about, and either returns a value or
    raises. *)

Inductive event : Type :=
| Apriori_call (min_support : float)
| Association_rules_call (min_threshold : float)
| Lookup (antecedent : frozenset).

Definition M (A : Type) : Type := list event -> result A * list event.

Definition ret {A : Type} (a : A) : M A := fun tr => (Return a, tr).

Definition lift {A : Type} (r : result A) : M A := fun tr => (r, tr).

Definition emit (ev : event) : M unit := fun tr => (Return tt, tr ++ [ev]).

Definition bind {A B : Type} (m : M A) (k : A -> M B) : M B :=
  fun tr =>
    match m tr with
    | (Return a, tr') => k a tr'
    | (Raise e, tr') => (Raise e, tr')
    end.

Declare Scope py_scope.
Delimit Scope py_scope with py.
Notation "x <- m ;; k" := (bind m (fun x => k))
  (at level 100, m at next level, right associativity) : py_scope.
Notation "m ;;; k" := (bind m (fun _ => k))
  (at level 100, right associativity) : py_scope.
Open Scope py_scope.

(** [try: body  except Exception as e: handler]. *)
Definition try_except_Exception {A : Type} (body : M A) (handler : string -> M A) : M A :=
  fun tr =>
    match body tr with
    | (Raise (Exception what), tr') => handler what tr'
    | other => other
    end.

(** The thresholds of the [apriori] calls of a trace, in order. *)
Fixpoint support_passes (tr : list event) : list float :=
  match tr with
  | [] => []
  | Apriori_call s :: tr' => s :: support_passes tr'
  | _ :: tr' => support_passes tr'
  end.

(** The thresholds of the [association_rules] calls of a trace, in order. *)
Fixpoint confidence_passes (tr : list event) : list float :=
  match tr with
  | [] => []
  | Association_rules_call c :: tr' => c :: confidence_passes tr'
  | _ :: tr' => confidence_passes tr'
  end.

(** The antecedents looked up in a rule frame, in order. *)
Fixpoint lookups (tr : list event) : list frozenset :=
  match tr with
  | [] => []
  | Lookup s :: tr' => s :: lookups tr'
  | _ :: tr' => lookups tr'
  end.

(* ================================================================= *)
(** * [generate_association_rules] (lines 57-104) *)

Section Generator.

(** mlxtend's [apriori(df, min_support=s, use_colnames=True)] and
    [association_rules(frequent_itemsets, metric="confidence",
    min_threshold=c)].  Each either returns a frame or raises. *)
Variable apriori : transactions -> float -> result (list itemset_row).
Variable association_rules : list itemset_row -> float -> result (list rule).

Definition call_apriori (df : transactions) (min_support : float)
  : M (list itemset_row) :=
  emit (Apriori_call min_support) ;;;
  lift (apriori df min_support).

Definition call_association_rules (frequent_itemsets : list itemset_row)
    (min_threshold : float) : M (list rule) :=
  emit (Association_rules_call min_threshold) ;;;
  lift (association_rules frequent_itemsets min_threshold).

(** Lines 71-79: the support ladder. *)
Definition mine_frequent_itemsets (df : transactions) : M (list itemset_row) :=
  frequent_itemsets <- call_apriori df MIN_SUPPORT_PRIMARY ;;
  frequent_itemsets <-
    (if empty frequent_itemsets
     then call_apriori df MIN_SUPPORT_SECONDARY
     else ret frequent_itemsets) ;;
  frequent_itemsets <-
    (if empty frequent_itemsets
     then call_apriori df MIN_SUPPORT_MINIMUM
     else ret frequent_itemsets) ;;
  ret frequent_itemsets.

(** Lines 84-100: the confidence ladder. *)
Definition derive_rules (frequent_itemsets : list itemset_row)
    (min_confidence : float) : M (list rule) :=
  rules <- call_association_rules frequent_itemsets min_confidence ;;
  rules <-
    (if empty rules
     then call_association_rules frequent_itemsets MIN_CONFIDENCE_SECONDARY
     else ret rules) ;;
  rules <-
    (if empty rules
     then call_association_rules frequent_itemsets MIN_CONFIDENCE_MINIMUM
     else ret rules) ;;
  ret rules.

(** The whole function: [pd.DataFrame()] is the frame without rows. *)
Definition generate_association_rules (df : transactions)
    (min_confidence : float) : M (list rule) :=
  try_except_Exception
    (frequent_itemsets <- mine_frequent_itemsets df ;;
     derive_rules frequent_itemsets min_confidence)
    (fun _ => ret []).

(** The call with the default argument, as [main] makes it. *)
Definition generate_association_rules_default (df : transactions)
  : M (list rule) :=
  generate_association_rules df MIN_CONFIDENCE_PRIMARY.

End Generator.

(** What a ladder of three passes does: a pass is made at [t1]; a second at
    [t2] when the first returned a frame without rows; a third at [t3] when
    the second did so too.  The run ends with the result of its last pass. *)
Definition escalation_run {A : Type} (pass : float -> result (list A))
    (ev : float -> event) (t1 t2 t3 : float) (tr : list event)
  : result (list A) * list event :=
  match pass t1 with
  | Return [] =>
      match pass t2 with
      | Return [] => (pass t3, tr ++ [ev t1; ev t2; ev t3])
      | r2 => (r2, tr ++ [ev t1; ev t2])
      end
  | r1 => (r1, tr ++ [ev t1])
  end.

(** A library never signals anything but an [Exception]. *)
Definition raises_only_errors {A B C : Type} (f : A -> B -> result C) : Prop :=
  forall a b what, f a b <> Raise (BaseException what).

(** mlxtend's [association_rules] refuses a frame without rows with a
    [ValueError]. *)
Definition rejects_empty_frame
    (association_rules : list itemset_row -> float -> result (list rule)) : Prop :=
  forall c, exists what, association_rules [] c = Raise (Exception what).

(* ================================================================= *)
(** * [parse_input_items] (lines 106-125)

    A [str] is modelled on the code points below 256, one [ascii] each. *)

(** [c.isspace()] on U+0000..U+00FF: TAB..CR, FS..US, SPACE, NEL and NBSP. *)
Definition isspace (c : ascii) : bool :=
  let n := nat_of_ascii c in
  ((9 <=? n) && (n <=? 13)) || ((28 <=? n) && (n <=? 32))
  || (n =? 133) || (n =? 160).

(** The upper-case letters of that range: A..Z, and U+00C0..U+00DE without
    the multiplication sign U+00D7. *)
Definition isupper (c : ascii) : bool :=
  let n := nat_of_ascii c in
  ((65 <=? n) && (n <=? 90))
  || ((192 <=? n) && (n <=? 222) && negb (n =? 215)).

Definition lower_char (c : ascii) : ascii :=
  if isupper c then ascii_of_nat (nat_of_ascii c + 32) else c.

(** [s.lower()]. *)
Fixpoint lower (s : string) : string :=
  match s with
  | EmptyString => EmptyString
  | String c s' => String (lower_char c) (lower s')
  end.

Fixpoint lstrip (s : string) : string :=
  match s with
  | EmptyString => EmptyString
  | String c s' => if isspace c then lstrip s' else s
  end.

Fixpoint rstrip (s : string) : string :=
  match s with
  | EmptyString => EmptyString
  | String c s' =>
      match rstrip s' with
      | EmptyString => if isspace c then EmptyString else String c EmptyString
      | r => String c r
      end
  end.

(** [s.strip()]. *)
Definition strip (s : string) : string := rstrip (lstrip s).

(** [s.split(',')]: one piece more than there are commas. *)
Fixpoint split_comma (s : string) : list string :=
  match s with
  | EmptyString => [EmptyString]
  | String c s' =>
      if Ascii.eqb c ","%char
      then EmptyString :: split_comma s'
      else match split_comma s' with
           | piece :: pieces => String c piece :: pieces
           | [] => [String c EmptyString]
           end
  end.

(** [',' in s]. *)
Fixpoint has_comma (s : string) : bool :=
  match s with
  | EmptyString => false
  | String c s' => Ascii.eqb c ","%char || has_comma s'
  end.

(** Truth value of a [str]. *)
Definition truthy (s : string) : bool :=
  match s with
  | EmptyString => false
  | String _ _ => true
  end.

(** Lines 116-118: the cleaned pieces, before the cap. *)
Definition cleaned_items (input_str : string) : list item :=
  let items := map (fun item => lower (strip item)) (split_comma input_str) in
  filter truthy items.

Definition parse_input_items (input_str : string) : list item :=
  let items := cleaned_items input_str in
  if 3 <? List.length items then firstn 3 items else items.

(** No white space at either end of [s]. *)
Definition no_outer_space (s : string) : Prop :=
  forall c,
    (exists s', s = String c s') \/ (exists s', s = (s' ++ String c EmptyString)%string) ->
    isspace c = false.

(* ================================================================= *)
(** * [find_best_recommendation] (lines 127-165) *)

(** pandas replaces NaN by minus infinity before it takes the arg-max. *)
Definition fill_nan (x : float) : float :=
  if is_nan x then neg_infinity else x.

(** First position of the greatest value, scanning left to right from a
    current best row. *)
Fixpoint argmax_from (best : rule) (rest : list rule) : rule :=
  match rest with
  | [] => best
  | r :: rest' =>
      if (fill_nan (confidence best) <? fill_nan (confidence r))%float
      then argmax_from r rest'
      else argmax_from best rest'
  end.

(** [frame.loc[frame['confidence'].idxmax()]]: the first row of greatest
    confidence, NaN skipped; no row to return when the column is empty or
    all NaN (a ValueError or a KeyError, by the pandas version). *)
Definition loc_idxmax (frame : list rule) : result rule :=
  match frame with
  | [] => Raise (Exception "ValueError")
  | r :: rest =>
      if forallb (fun r' => is_nan (confidence r')) frame
      then Raise (Exception "ValueError")
      else Return (argmax_from r rest)
  end.

(** [list(s)[0]]. *)
Definition first_element (s : frozenset) : result item :=
  match s with
  | [] => Raise (Exception "IndexError")
  | x :: _ => Return x
  end.

(** [rules[rules['antecedents'] == key]]: the rows whose antecedent equals
    [key], in the frame's order. *)
Definition select_antecedent (rules : list rule) (key : frozenset) : M (list rule) :=
  emit (Lookup key) ;;;
  ret (filter (fun r => frozenset_eqb (antecedents r) key) rules).

(** Lines 149-151 and 161-163. *)
Definition best_consequent (frame : list rule) : M (option item) :=
  best_rule <- lift (loc_idxmax frame) ;;
  consequent <- lift (first_element (consequents best_rule)) ;;
  ret (Some consequent).

Definition find_best_recommendation (input_items : list item) (rules : list rule)
  : M (option item) :=
  if empty rules then ret None
  else
    let input_set := mk_frozenset input_items in
    matching_rules <- select_antecedent rules input_set ;;
    if negb (empty matching_rules) then best_consequent matching_rules
    else
      match input_items with
      | first_item :: _ =>
          let first_item_set := mk_frozenset [first_item] in
          first_item_rules <- select_antecedent rules first_item_set ;;
          if negb (empty first_item_rules) then best_consequent first_item_rules
          else ret None
      | [] => ret None
      end.

(** The rules of a frame whose antecedent is the set of [key]'s items. *)
Definition matches (key : list item) (r : rule) : Prop :=
  set_equal (antecedents r) key.

(** [best] is a rule of greatest confidence among the rules of [rules] that
    match [key]. *)
Definition max_confidence_match (rules : list rule) (key : list item) (best : rule) : Prop :=
  In best rules /\ matches key best /\
  forall r, In r rules -> matches key r ->
            (confidence r <=? confidence best)%float = true.

(* ================================================================= *)
(** * Sample frames and library behaviours

    Concrete inputs on which the statements below are instantiated. *)

Definition sample_df : transactions :=
  {| columns := ["bread"; "milk"]%string;
     rows := [[true; true]; [false; true]] |}.

Definition sample_itemsets : list itemset_row :=
  [ {| support := 1%float; itemsets := ["milk"]%string |};
    {| support := 0.5%float; itemsets := ["bread"]%string |};
    {| support := 0.5%float; itemsets := ["bread"; "milk"]%string |} ].

(** The rules of the resolver examples: a -> b at 1.0, a -> c at 0.667. *)
Definition rule_a_b : rule :=
  {| antecedents := ["a"]%string; consequents := ["b"]%string;
     confidence := 1%float |}.

Definition rule_a_c : rule :=
  {| antecedents := ["a"]%string; consequents := ["c"]%string;
     confidence := 0.667%float |}.

Definition sample_rules : list rule := [rule_a_c; rule_a_b].

(** A row no rule generator emits: its consequent is the empty set. *)
Definition hollow_rule : rule :=
  {| antecedents := ["a"]%string; consequents := [];
     confidence := 0.5%float |}.

(** A rule whose confidence lies between the minimum and the secondary
    confidence constants. *)
Definition faint_rule : rule :=
  {| antecedents := ["bread"]%string; consequents := ["milk"]%string;
     confidence := 0.0015%float |}.

(** A miner that keeps the rows of [found] whose support reaches the
    threshold. *)
Definition apriori_of (found : list itemset_row)
  : transactions -> float -> result (list itemset_row) :=
  fun _ min_support =>
    Return (filter (fun row => (min_support <=? support row)%float) found).

(** Two items never bought together: each is frequent, no pair is. *)
Definition disjoint_df : transactions :=
  {| columns := ["bread"; "milk"]%string;
     rows := [[true; false]; [false; true]] |}.

Definition single_itemsets : list itemset_row :=
  [ {| support := 0.5%float; itemsets := ["bread"]%string |};
    {| support := 0.5%float; itemsets := ["milk"]%string |} ].

(** Two items bought by just over half of the customers each, and together
    in one basket of two hundred (2 of 400 baskets, with 201 each). *)
Definition scarce_pair_itemsets : list itemset_row :=
  [ {| support := 0.5025%float; itemsets := ["bread"]%string |};
    {| support := 0.5025%float; itemsets := ["milk"]%string |};
    {| support := 0.005%float; itemsets := ["bread"; "milk"]%string |} ].

(** The sub-collections of a collection. *)
Fixpoint sublists (l : list item) : list (list item) :=
  match l with
  | [] => [[]]
  | x :: l' => map (cons x) (sublists l') ++ sublists l'
  end.

(** The support a frame records for an itemset. *)
Definition support_in (frequent_itemsets : list itemset_row) (s : frozenset)
  : option float :=
  option_map support
    (find (fun row => frozenset_eqb (itemsets row) s) frequent_itemsets).

(** A rule generator that computes the rules of the frame it is given, in
    the manner of mlxtend: for every itemset and every split of it into a
    non-empty antecedent and a non-empty consequent, the confidence is the
    support of the itemset divided by the support of the antecedent, and the
    rule is kept when the confidence reaches the threshold.  It refuses a
    frame without rows. *)
Definition computed_association_rules
  : list itemset_row -> float -> result (list rule) :=
  fun frequent_itemsets min_threshold =>
    match frequent_itemsets with
    | [] => Raise (Exception "ValueError")
    | _ :: _ =>
        Return
          (flat_map
             (fun row =>
                flat_map
                  (fun antecedent =>
                     if empty antecedent
                        || (List.length (itemsets row) <=? List.length antecedent)
                     then []
                     else
                       match support_in frequent_itemsets antecedent with
                       | Some antecedent_support =>
                           let c := (support row / antecedent_support)%float in
                           if (min_threshold <=? c)%float
                           then [{| antecedents := antecedent;
                                    consequents :=
                                      filter (fun x => negb (mem x antecedent))
                                        (itemsets row);
                                    confidence := c |}]
                           else []
                       | None => []
                       end)
                  (sublists (itemsets row)))
             frequent_itemsets)
    end.

(** A miner that always fails. *)
Definition failing_apriori : transactions -> float -> result (list itemset_row) :=
  fun _ _ => Raise (Exception "MemoryError").

(** A rule generator in the manner of mlxtend: it refuses a frame without
    rows, and otherwise keeps the rules of [known] whose confidence reaches
    the threshold. *)
Definition association_rules_of (known : list rule)
  : list itemset_row -> float -> result (list rule) :=
  fun frequent_itemsets min_threshold =>
    match frequent_itemsets with
    | [] => Raise (Exception "ValueError")
    | _ :: _ =>
        Return (filter (fun r => (min_threshold <=? confidence r)%float) known)
    end.

(** The rows a lookup for [key] selects. *)
Definition rows_matching (key : list item) (rules : list rule) : list rule :=
  filter (fun r => frozenset_eqb (antecedents r) (mk_frozenset key)) rules.

(** The resolver's answer as a function of the two frames it may select:
    the rows that match the query and the rows that match its first item. *)
Definition answer_of_frames (input_items : list item)
    (matching_rules first_item_rules : list rule) : result (option item) :=
  if negb (empty matching_rules) then fst (best_consequent matching_rules [])
  else
    match input_items with
    | _ :: _ =>
        if negb (empty first_item_rules)
        then fst (best_consequent first_item_rules [])
        else Return None
    | [] => Return None
    end.

(* ================================================================= *)
(** * [load_groceries_data] (lines 16-55)

    The cleaning is given twice: on a column of [str] and NaN entries
    ([None] for NaN), where it cannot fail, and on any column, where an
    entry that is neither raises. *)

(** Line 37: the entries that are not NaN, trimmed and case-folded. *)
Fixpoint clean_transaction (transaction : list (option string)) : list item :=
  match transaction with
  | [] => []
  | Some item :: transaction' => lower (strip item) :: clean_transaction transaction'
  | None :: transaction' => clean_transaction transaction'
  end.

(** Lines 34-39: the cleaned transactions that still hold an item. *)
Fixpoint clean_transactions (transactions : list (list (option string)))
  : list (list item) :=
  match transactions with
  | [] => []
  | transaction :: transactions' =>
      let cleaned_items := clean_transaction transaction in
      if 0 <? List.length cleaned_items
      then cleaned_items :: clean_transactions transactions'
      else clean_transactions transactions'
  end.

(** An entry of the item column as pandas reads it: a [str], NaN, or, when
    the column parses as numbers, a number that is not NaN. *)
Inductive entry : Type :=
| Text (s : string)
| Missing
| Number.

(** The entry as the cleaning of a [str]-or-NaN column sees it. *)
Definition entry_text (e : entry) : option string :=
  match e with
  | Text s => Some s
  | Missing => None
  | Number => None
  end.

(** Line 37 on any entries: [pd.notna] holds of a number, and
    [item.strip()] on it raises AttributeError. *)
Fixpoint clean_entries (transaction : list entry) : result (list item) :=
  match transaction with
  | [] => Return []
  | Text item :: transaction' =>
      match clean_entries transaction' with
      | Return cleaned_items => Return (lower (strip item) :: cleaned_items)
      | Raise e => Raise e
      end
  | Missing :: transaction' => clean_entries transaction'
  | Number :: _ => Raise (Exception "AttributeError")
  end.

(** Lines 34-39 on any entries. *)
Fixpoint clean_baskets (transactions : list (list entry))
  : result (list (list item)) :=
  match transactions with
  | [] => Return []
  | transaction :: transactions' =>
      match clean_entries transaction with
      | Raise e => Raise e
      | Return cleaned_items =>
          match clean_baskets transactions' with
          | Raise e => Raise e
          | Return cleaned_transactions =>
              Return (if 0 <? List.length cleaned_items
                      then cleaned_items :: cleaned_transactions
                      else cleaned_transactions)
          end
      end
  end.

(** Some entry of some transaction is a number. *)
Definition holds_number (transactions : list (list entry)) : Prop :=
  exists transaction, In transaction transactions /\ In Number transaction.

Section Loader.

(** Lines 26-29, the pandas calls that read the file and group its rows
    into baskets; and lines 44-46, mlxtend's [TransactionEncoder] with the
    frame built from its output. *)
Variable read_baskets : result (list (list entry)).
Variable encode : list (list item) -> result transactions.

(** Both handlers return [None]. *)
Definition load_groceries_data : M (option transactions) :=
  try_except_Exception
    (transactions <- lift read_baskets ;;
     cleaned_transactions <- lift (clean_baskets transactions) ;;
     df <- lift (encode cleaned_transactions) ;;
     ret (Some df))
    (fun _ => ret None).

End Loader.

(* ================================================================= *)
(** * The interactive loop of [main] (lines 218-265) and [main] itself

    Of the console output, the lines of the loop and the two notices with
    which [main] gives up are modelled; banners and progress lines are not. *)

Inductive message : Type :=
| Enter_items                               (* the prompt of [input] *)
| Thank_you                                 (* line 225 *)
| Only_first_three (kept : list item)       (* line 122, in [parse_input_items] *)
| Please_enter_item                         (* line 232 *)
| None_found                                (* line 240 *)
| Available_items_include (shown : list item)   (* line 241 *)
| Items_not_found (invalid_items : list item)   (* line 247 *)
| Maybe_purchase (recommendation : item)    (* line 254 *)
| No_recommendation                         (* line 256 *)
| Blank_line                                (* line 258 *)
| Goodbye                                   (* line 261 *)
| Error_occurred (what : string)            (* line 264 *)
| Please_try_again                          (* line 265 *)
| Failed_to_load                            (* line 181 *)
| No_rules_generated.                       (* line 193 *)

(** What [input] does: it returns a line, or raises EOFError at the end of
    the input, or KeyboardInterrupt. *)
Inductive stdin_event : Type :=
| Line (text : string)
| EOF
| Ctrl_C.

(** How an iteration of [while True] ends. *)
Inductive control : Type :=
| Continue
| Break
| Propagate (e : exn).

(** How a run ends; [Out_of_fuel] when the iterations allowed are used up. *)
Inductive exit : Type :=
| Finished
| Aborted (e : exn)
| Out_of_fuel.

Definition quit_words : list string := ["quit"; "exit"; "q"]%string.

(** [sorted(l)] on strings: ascending in the order of code points. *)
Fixpoint insert_sorted (x : string) (l : list string) : list string :=
  match l with
  | [] => [x]
  | y :: l' => if String.leb x y then x :: l else y :: insert_sorted x l'
  end.

Definition sorted (l : list string) : list string := fold_right insert_sorted [] l.

Section Loop.

(** The order in which Python iterates over [set(l)]. *)
Variable set_order : list item -> list item.

(** Lines 229-258, for the stripped line [user_input] that is no quit word:
    the messages printed, and the exception if the resolver raised. *)
Definition answer_query (df : transactions) (rules : list rule) (user_input : string)
  : list message * result unit :=
  let cleaned := cleaned_items user_input in
  let warning :=
    if 3 <? List.length cleaned then [Only_first_three (firstn 3 cleaned)] else [] in
  let input_items := parse_input_items user_input in
  if empty input_items then (warning ++ [Please_enter_item], Return tt)
  else
    let available_items := set_order (columns df) in
    let valid_items := filter (fun item => mem item (columns df)) input_items in
    if empty valid_items
    then (warning ++ [None_found;
                      Available_items_include (sorted (firstn 10 available_items))],
          Return tt)
    else
      let differ := negb (List.length valid_items =? List.length input_items) in
      let invalid_items := filter (fun item => negb (mem item (columns df))) input_items in
      let note := if differ then [Items_not_found invalid_items] else [] in
      let input_items := if differ then valid_items else input_items in
      match fst (find_best_recommendation input_items rules []) with
      | Raise e => (warning ++ note, Raise e)
      | Return recommendation =>
          let reply :=
            match recommendation with
            | Some r => if truthy r then Maybe_purchase r else No_recommendation
            | None => No_recommendation
            end in
          (warning ++ note ++ [reply; Blank_line], Return tt)
      end.

(** One iteration of the loop, lines 219-265. *)
Definition serve (df : transactions) (rules : list rule) (ev : stdin_event)
  : list message * control :=
  match ev with
  | Ctrl_C => ([Enter_items; Goodbye], Break)
  | EOF => ([Enter_items; Error_occurred "EOFError"; Please_try_again], Continue)
  | Line text =>
      let user_input := strip text in
      if existsb (String.eqb (lower user_input)) quit_words
      then ([Enter_items; Thank_you], Break)
      else
        match answer_query df rules user_input with
        | (out, Return _) => (Enter_items :: out, Continue)
        | (out, Raise (Exception what)) =>
            (Enter_items :: out ++ [Error_occurred what; Please_try_again], Continue)
        | (out, Raise (BaseException what)) =>
            (Enter_items :: out, Propagate (BaseException what))
        end
  end.

(** The loop, for at most [fuel] iterations, reading [stdin k] at the
    iteration numbered [k]. *)
Fixpoint serve_loop (fuel : nat) (df : transactions) (rules : list rule)
    (stdin : nat -> stdin_event) (k : nat) : list message * exit :=
  match fuel with
  | 0 => ([], Out_of_fuel)
  | S fuel' =>
      match serve df rules (stdin k) with
      | (out, Continue) =>
          let (out', how) := serve_loop fuel' df rules stdin (S k) in
          (out ++ out', how)
      | (out, Break) => (out, Finished)
      | (out, Propagate e) => (out, Aborted e)
      end
  end.

Variable read_baskets : result (list (list entry)).
Variable encode : list (list item) -> result transactions.
Variable apriori : transactions -> float -> result (list itemset_row).
Variable association_rules : list itemset_row -> float -> result (list rule).

(** [main], lines 167-265. *)
Definition main (stdin : nat -> stdin_event) (fuel : nat) : list message * exit :=
  match fst (load_groceries_data read_baskets encode []) with
  | Raise e => ([], Aborted e)
  | Return None => ([Failed_to_load], Finished)
  | Return (Some df) =>
      match fst (generate_association_rules apriori association_rules df
                   MIN_CONFIDENCE_PRIMARY []) with
      | Raise e => ([], Aborted e)
      | Return rules =>
          if empty rules then ([No_rules_generated], Finished)
          else serve_loop fuel df rules stdin 0
      end
  end.

End Loop.

(** What [n] iterations print, from the iteration numbered [k] on. *)
Fixpoint iterations_output (set_order : list item -> list item)
    (df : transactions) (rules : list rule) (stdin : nat -> stdin_event)
    (n k : nat) : list message :=
  match n with
  | 0 => []
  | S n' =>
      fst (serve set_order df rules (stdin k)) ++
      iterations_output set_order df rules stdin n' (S k)
  end.

(** The inputs on which the loop stops: an interrupt, or a line that is a
    quit word once trimmed and case-folded. *)
Definition stop_request (ev : stdin_event) : Prop :=
  ev = Ctrl_C \/
  exists text, ev = Line text /\ In (lower (strip text)) quit_words.

(** The messages of one iteration at the end of the input. *)
Definition eof_messages : list message :=
  [Enter_items; Error_occurred "EOFError"; Please_try_again].

(* ================================================================= *)
(** * Sample inputs of the loader and of the loop *)

(** Rules with a tie at the greatest confidence, and a rule for a pair. *)
Definition rule_a_d : rule :=
  {| antecedents := ["a"]%string; consequents := ["d"]%string;
     confidence := 1%float |}.

Definition tied_rules : list rule := [rule_a_c; rule_a_b; rule_a_d].

Definition rule_ab_c : rule :=
  {| antecedents := ["a"; "b"]%string; consequents := ["c"]%string;
     confidence := 0.8%float |}.

Definition pair_rules : list rule := [rule_a_b; rule_ab_c].

Definition letters_df : transactions :=
  {| columns := ["a"; "b"; "c"]%string;
     rows := [[true; true; false]; [true; false; true]] |}.

Definition sample_baskets : list (list entry) :=
  [[Text " A "%string; Text "b"%string]; [Missing]; [Text "a"%string; Text "C"%string]].

(** Baskets of a numeric item column. *)
Definition numeric_baskets : list (list entry) :=
  [[Text "a"%string]; [Missing; Number]].

Definition letters_encode : list (list item) -> result transactions :=
  fun _ => Return letters_df.

Definition failing_encode : list (list item) -> result transactions :=
  fun _ => Raise (Exception "ValueError").

Definition insertion_order : list item -> list item := fun l => l.

(** A session: a query, a known item with an unknown one, then [quit]. *)
Definition sample_session (k : nat) : stdin_event :=
  nth k [Line "a"%string; Line "b, zzz"%string; Line " Quit "%string] EOF.

(** An input that is at its end from the start. *)
Definition closed_stdin (k : nat) : stdin_event := EOF.

(* ================================================================= *)
(** * Order facts about binary64 comparison *)

Module FloatOrder.

Ltac sf_cases :=
  rewrite ?Pos.compare_cont_spec; simpl;
  repeat match goal with
         | |- context [Z.compare ?a ?b] => destruct (Z.compare_spec a b)
         end;
  subst; simpl; try discriminate; try reflexivity; try lia;
  repeat match goal with
         | |- context [Pos.compare ?a ?b] => destruct (Pos.compare_spec a b)
         end;
  subst; simpl; try discriminate; try reflexivity; try lia.

Ltac sf_destruct x :=
  let s := fresh "s" in
  destruct x as [s|s| |s ? ?]; try destruct s.

Lemma SFleb_refl x : x <> S754_nan -> SFleb x x = true.
Proof.
  unfold SFleb, SFcompare. sf_destruct x; intros H; try reflexivity;
    try congruence; sf_cases.
Qed.

Lemma SFltb_SFleb_trans a b c :
  SFltb a b = true -> SFleb b c = true -> SFleb a c = true.
Proof.
  unfold SFltb, SFleb, SFcompare.
  sf_destruct a; sf_destruct b; sf_destruct c;
    try discriminate; try reflexivity; sf_cases.
Qed.

Lemma SFleb_trans a b c :
  SFleb a b = true -> SFleb b c = true -> SFleb a c = true.
Proof.
  unfold SFleb, SFcompare.
  sf_destruct a; sf_destruct b; sf_destruct c;
    try discriminate; try reflexivity; sf_cases.
Qed.

Lemma SFltb_false_SFleb a b :
  a <> S754_nan -> b <> S754_nan -> SFltb a b = false -> SFleb b a = true.
Proof.
  unfold SFltb, SFleb, SFcompare.
  sf_destruct a; sf_destruct b; intros Ha Hb;
    try congruence; try discriminate; try reflexivity; sf_cases.
Qed.

Lemma SFltb_asym a b : SFltb a b = true -> SFltb b a = false.
Proof.
  unfold SFltb, SFcompare.
  sf_destruct a; sf_destruct b;
    try discriminate; try reflexivity; sf_cases.
Qed.

Lemma SFltb_SFleb_false a b : SFltb a b = true -> SFleb b a = false.
Proof.
  unfold SFltb, SFleb, SFcompare.
  sf_destruct a; sf_destruct b;
    try discriminate; try reflexivity; sf_cases.
Qed.

(** A float that is not NaN does not denote [S754_nan]. *)
Lemma not_nan_Prim2SF x : is_nan x = false -> Prim2SF x <> S754_nan.
Proof.
  unfold is_nan. rewrite eqb_spec. intros H E. rewrite E in H. discriminate H.
Qed.

Lemma leb_refl x : is_nan x = false -> (x <=? x)%float = true.
Proof. intros H. rewrite leb_spec. apply SFleb_refl, not_nan_Prim2SF, H. Qed.

Lemma ltb_leb_trans a b c :
  (a <? b)%float = true -> (b <=? c)%float = true -> (a <=? c)%float = true.
Proof. rewrite ltb_spec, !leb_spec. apply SFltb_SFleb_trans. Qed.

Lemma leb_trans a b c :
  (a <=? b)%float = true -> (b <=? c)%float = true -> (a <=? c)%float = true.
Proof. rewrite !leb_spec. apply SFleb_trans. Qed.

Lemma ltb_false_leb a b :
  is_nan a = false -> is_nan b = false ->
  (a <? b)%float = false -> (b <=? a)%float = true.
Proof.
  intros Ha Hb. rewrite ltb_spec, leb_spec.
  apply SFltb_false_SFleb; apply not_nan_Prim2SF; assumption.
Qed.

Lemma ltb_asym a b : (a <? b)%float = true -> (b <? a)%float = false.
Proof. rewrite !ltb_spec. apply SFltb_asym. Qed.

Lemma ltb_leb_false a b : (a <? b)%float = true -> (b <=? a)%float = false.
Proof. rewrite ltb_spec, leb_spec. apply SFltb_SFleb_false. Qed.

End FloatOrder.

(* ================================================================= *)
(** * Sets of items *)

Lemma mem_In x s : mem x s = true <-> In x s.
Proof.
  unfold mem. rewrite existsb_exists. split.
  - intros [y [Hy E]]. apply String.eqb_eq in E. subst. exact Hy.
  - intros H. exists x. split; [exact H | apply String.eqb_refl].
Qed.

Lemma issubset_incl a b : issubset a b = true <-> incl a b.
Proof.
  unfold issubset, incl. rewrite forallb_forall.
  split; intros H x Hx; apply mem_In, H, Hx.
Qed.

Lemma frozenset_eqb_set_equal a b : frozenset_eqb a b = true <-> set_equal a b.
Proof.
  unfold frozenset_eqb, set_equal.
  rewrite andb_true_iff, !issubset_incl. unfold incl. split.
  - intros [Hab Hba] x. split; auto.
  - intros H. split; intros x Hx; apply H, Hx.
Qed.

Lemma mk_frozenset_In x l : In x (mk_frozenset l) <-> In x l.
Proof. unfold mk_frozenset. apply nodup_In. Qed.

(** Comparing with [frozenset(key)] decides whether a rule matches [key]. *)
Lemma frozenset_eqb_matches r key :
  frozenset_eqb (antecedents r) (mk_frozenset key) = true <-> matches key r.
Proof.
  rewrite frozenset_eqb_set_equal. unfold matches, set_equal.
  split; intros H x; rewrite H; [apply mk_frozenset_In | symmetry; apply mk_frozenset_In].
Qed.

Lemma empty_false_iff {A : Type} (l : list A) : empty l = false <-> l <> [].
Proof. destruct l; simpl; split; congruence. Qed.

(* ================================================================= *)
(** * The row [idxmax] picks *)

Lemma argmax_from_In best rest : In (argmax_from best rest) (best :: rest).
Proof.
  revert best. induction rest as [|r rest IH]; intros best; simpl.
  - left. reflexivity.
  - destruct (fill_nan (confidence best) <? fill_nan (confidence r))%float.
    + right. apply IH.
    + destruct (IH best) as [H | H]; [left; exact H | right; right; exact H].
Qed.

Lemma fill_nan_number x : is_nan x = false -> fill_nan x = x.
Proof. unfold fill_nan. intros ->. reflexivity. Qed.

(** On a column without NaN the picked row dominates the start row and every
    row scanned. *)
Lemma argmax_from_greatest rest :
  forall best,
    Forall (fun r => is_nan (confidence r) = false) (best :: rest) ->
    forall r, In r (best :: rest) ->
      (confidence r <=? confidence (argmax_from best rest))%float = true.
Proof.
  induction rest as [|x rest IH]; intros best Hnum r Hr.
  - destruct Hr as [<- | []]. simpl.
    apply FloatOrder.leb_refl. inversion Hnum; assumption.
  - inversion Hnum as [|? ? Hb Hrest]; subst.
    inversion Hrest as [|? ? Hx Hrest']; subst.
    simpl. rewrite (fill_nan_number _ Hb), (fill_nan_number _ Hx).
    destruct (confidence best <? confidence x)%float eqn:Hlt.
    + assert (Hx_le : forall r', In r' (x :: rest) ->
                (confidence r' <=? confidence (argmax_from x rest))%float = true)
        by (apply IH; constructor; assumption).
      destruct Hr as [<- | Hr].
      * apply FloatOrder.ltb_leb_trans with (b := confidence x); [exact Hlt|].
        apply Hx_le. left. reflexivity.
      * apply Hx_le, Hr.
    + assert (Hb_le : forall r', In r' (best :: rest) ->
                (confidence r' <=? confidence (argmax_from best rest))%float = true)
        by (apply IH; constructor; assumption).
      destruct Hr as [<- | [<- | Hr]].
      * apply Hb_le. left. reflexivity.
      * apply FloatOrder.leb_trans with (b := confidence best).
        -- apply FloatOrder.ltb_false_leb; assumption.
        -- apply Hb_le. left. reflexivity.
      * apply Hb_le. right. exact Hr.
Qed.

(** On a non-empty frame of well-formed rules, lines 149-151 return an item
    of the consequent of a row of greatest confidence, and leave the trace
    as it is. *)
Lemma best_consequent_returns frame :
  frame <> [] -> Forall rule_wf frame ->
  exists best consequent,
    In best frame /\
    (forall r, In r frame -> (confidence r <=? confidence best)%float = true) /\
    In consequent (consequents best) /\
    forall tr, best_consequent frame tr = (Return (Some consequent), tr).
Proof.
  intros Hne Hwf. destruct frame as [|r0 rest]; [congruence|].
  assert (Hnum : Forall (fun r => is_nan (confidence r) = false) (r0 :: rest)).
  { eapply Forall_impl; [|exact Hwf]. intros r (_ & _ & H). exact H. }
  set (best := argmax_from r0 rest).
  assert (Hin : In best (r0 :: rest)) by apply argmax_from_In.
  assert (Hbest : rule_wf best) by (rewrite Forall_forall in Hwf; apply Hwf, Hin).
  destruct Hbest as (_ & Hcons & _).
  destruct (consequents best) as [|c cs] eqn:Ec; [congruence|].
  exists best, c. repeat split.
  - exact Hin.
  - intros r Hr. apply argmax_from_greatest; assumption.
  - rewrite Ec. left. reflexivity.
  - intros tr. unfold best_consequent, bind, lift, loc_idxmax.
    assert (Hn0 : is_nan (confidence r0) = false) by (inversion Hnum; assumption).
    cbn [forallb]. rewrite Hn0. cbn [andb]. fold best.
    unfold first_element. rewrite Ec. reflexivity.
Qed.

(** What a lookup returns and records. *)
Lemma select_antecedent_run rules key tr :
  select_antecedent rules (mk_frozenset key) tr =
  (Return (filter (fun r => frozenset_eqb (antecedents r) (mk_frozenset key)) rules),
   tr ++ [Lookup (mk_frozenset key)]).
Proof. reflexivity. Qed.

Lemma select_In rules key r :
  In r (filter (fun r => frozenset_eqb (antecedents r) (mk_frozenset key)) rules) <->
  In r rules /\ matches key r.
Proof. rewrite filter_In, frozenset_eqb_matches. reflexivity. Qed.

Lemma select_wf rules key :
  rule_set_wf rules ->
  Forall rule_wf (filter (fun r => frozenset_eqb (antecedents r) (mk_frozenset key)) rules).
Proof.
  unfold rule_set_wf. rewrite !Forall_forall. intros H r Hr.
  apply H. apply filter_In in Hr. apply Hr.
Qed.

(** The best consequent of the rules that match [key], when there are some. *)
Lemma best_of_matches rules key :
  rule_set_wf rules ->
  (exists r, In r rules /\ matches key r) ->
  exists best consequent,
    max_confidence_match rules key best /\
    In consequent (consequents best) /\
    forall tr,
      best_consequent
        (filter (fun r => frozenset_eqb (antecedents r) (mk_frozenset key)) rules) tr
      = (Return (Some consequent), tr).
Proof.
  intros Hwf [r0 Hr0].
  destruct (best_consequent_returns
              (filter (fun r => frozenset_eqb (antecedents r) (mk_frozenset key)) rules))
    as (best & c & Hin & Hmax & Hc & Hrun).
  - intros E. apply select_In in Hr0. rewrite E in Hr0. exact Hr0.
  - apply select_wf, Hwf.
  - apply select_In in Hin. destruct Hin as [Hin Hm].
    exists best, c. repeat split; try assumption.
    + apply Hm.
    + apply Hm.
    + intros r Hr Hmr. apply Hmax. apply select_In. split; assumption.
Qed.

Lemma no_match_filter_nil rules key :
  (forall r, In r rules -> ~ matches key r) ->
  filter (fun r => frozenset_eqb (antecedents r) (mk_frozenset key)) rules = [].
Proof.
  intros H.
  destruct (filter _ rules) as [|r l] eqn:E; [reflexivity|].
  assert (Hr : In r (r :: l)) by (left; reflexivity).
  rewrite <- E in Hr. apply select_In in Hr. destruct Hr as [Hr Hm].
  exfalso. exact (H r Hr Hm).
Qed.

Lemma some_match_filter_cons rules key :
  (exists r, In r rules /\ matches key r) ->
  empty (filter (fun r => frozenset_eqb (antecedents r) (mk_frozenset key)) rules) = false.
Proof.
  intros [r Hr]. apply empty_false_iff. intros E.
  apply select_In in Hr. rewrite E in Hr. exact Hr.
Qed.

(* ================================================================= *)
(** * The resolver *)

Lemma find_best_recommendation_no_rules input_items tr :
  find_best_recommendation input_items [] tr = (Return None, tr).
Proof. reflexivity. Qed.

(** The run of the resolver on a frame with rows, first stage decided. *)
Lemma find_best_recommendation_exact rules input_items tr :
  rules <> [] ->
  (exists r, In r rules /\ matches input_items r) ->
  find_best_recommendation input_items rules tr =
  best_consequent
    (filter (fun r => frozenset_eqb (antecedents r) (mk_frozenset input_items)) rules)
    (tr ++ [Lookup (mk_frozenset input_items)]).
Proof.
  intros Hne Hex. unfold find_best_recommendation.
  apply empty_false_iff in Hne. rewrite Hne.
  unfold bind at 1. rewrite select_antecedent_run.
  rewrite (some_match_filter_cons _ _ Hex). reflexivity.
Qed.

Lemma find_best_recommendation_fallback rules first_item rest tr :
  rules <> [] ->
  (forall r, In r rules -> ~ matches (first_item :: rest) r) ->
  find_best_recommendation (first_item :: rest) rules tr =
  let first_item_rules :=
    filter (fun r => frozenset_eqb (antecedents r) (mk_frozenset [first_item])) rules in
  let tr' := tr ++ [Lookup (mk_frozenset (first_item :: rest))]
                ++ [Lookup (mk_frozenset [first_item])] in
  if negb (empty first_item_rules)
  then best_consequent first_item_rules tr'
  else (Return None, tr').
Proof.
  intros Hne Hno. unfold find_best_recommendation.
  apply empty_false_iff in Hne. rewrite Hne.
  unfold bind at 1. rewrite select_antecedent_run.
  rewrite (no_match_filter_nil _ _ Hno). cbn [empty negb].
  unfold bind at 1. rewrite select_antecedent_run.
  rewrite <- app_assoc.
  destruct (empty (filter _ rules)); reflexivity.
Qed.

Lemma rules_nonempty_of_match (rules : list rule) (P : rule -> Prop) :
  (exists r, In r rules /\ P r) -> rules <> [].
Proof. intros [r [Hr _]] E. rewrite E in Hr. exact Hr. Qed.

(** C1.  When some rule's antecedent is the set of the query's items, the
    resolver returns an item of the consequent of a rule of greatest
    confidence among those exact matches, and the only frame lookup it makes
    is the one for the query set: the first-item lookup is never reached. *)
Theorem exact_match_wins (rules : list rule) (input_items : list item) :
  rule_set_wf rules ->
  (exists r, In r rules /\ matches input_items r) ->
  exists best consequent,
    max_confidence_match rules input_items best /\
    In consequent (consequents best) /\
    forall tr,
      find_best_recommendation input_items rules tr =
      (Return (Some consequent), tr ++ [Lookup (mk_frozenset input_items)]).
Proof.
  intros Hwf Hex.
  destruct (best_of_matches rules input_items Hwf Hex) as (best & c & Hmax & Hc & Hrun).
  exists best, c. repeat split; try apply Hmax; try exact Hc.
  intros tr. rewrite find_best_recommendation_exact.
  - apply Hrun.
  - eapply rules_nonempty_of_match, Hex.
  - exact Hex.
Qed.

(** C2.  For a query [first_item :: rest] that no rule matches exactly, the
    resolver looks up the singleton of the first item: when a rule has that
    antecedent it returns an item of the consequent of a rule of greatest
    confidence among them, and otherwise it returns no recommendation. *)
Theorem first_item_fallback (rules : list rule) (first_item : item) (rest : list item) :
  rule_set_wf rules ->
  (forall r, In r rules -> ~ matches (first_item :: rest) r) ->
  ((exists r, In r rules /\ matches [first_item] r) ->
   exists best consequent,
     max_confidence_match rules [first_item] best /\
     In consequent (consequents best) /\
     forall tr,
       find_best_recommendation (first_item :: rest) rules tr =
       (Return (Some consequent),
        tr ++ [Lookup (mk_frozenset (first_item :: rest));
               Lookup (mk_frozenset [first_item])]))
  /\
  ((forall r, In r rules -> ~ matches [first_item] r) ->
   forall tr,
     fst (find_best_recommendation (first_item :: rest) rules tr) = Return None).
Proof.
  intros Hwf Hno. split.
  - intros Hex.
    destruct (best_of_matches rules [first_item] Hwf Hex) as (best & c & Hmax & Hc & Hrun).
    exists best, c. repeat split; try apply Hmax; try exact Hc.
    intros tr. rewrite find_best_recommendation_fallback.
    + cbv zeta. rewrite (some_match_filter_cons _ _ Hex). cbn [negb].
      rewrite Hrun. reflexivity.
    + eapply rules_nonempty_of_match, Hex.
    + exact Hno.
  - intros Hno1 tr. destruct rules as [|r0 rules'].
    + reflexivity.
    + rewrite find_best_recommendation_fallback; [|congruence|exact Hno].
      cbv zeta. rewrite (no_match_filter_nil _ _ Hno1). reflexivity.
Qed.

(** C3.  On a well-formed rule set the resolver never raises: it returns an
    item or [None]; and it returns [None] when the rule set has no rows and
    when the query is empty. *)
Theorem resolver_total (rules : list rule) (input_items : list item) (tr : list event) :
  rule_set_wf rules ->
  (exists answer : option item,
      fst (find_best_recommendation input_items rules tr) = Return answer) /\
  (rules = [] -> fst (find_best_recommendation input_items rules tr) = Return None) /\
  (input_items = [] -> fst (find_best_recommendation input_items rules tr) = Return None).
Proof.
  intros Hwf.
  assert (Hdec : forall key,
             (exists r, In r rules /\ matches key r) \/
             (forall r, In r rules -> ~ matches key r)).
  { intros key.
    destruct (filter (fun r => frozenset_eqb (antecedents r) (mk_frozenset key)) rules)
      as [|r l] eqn:E.
    - right. intros r Hr Hm.
      assert (H : In r []) by (rewrite <- E; apply select_In; split; assumption).
      exact H.
    - left. exists r. apply select_In. rewrite E. left. reflexivity. }
  split; [|split].
  - destruct (Hdec input_items) as [Hex | Hno].
    + destruct (best_of_matches rules input_items Hwf Hex) as (_ & c & _ & _ & Hrun).
      exists (Some c). rewrite find_best_recommendation_exact, Hrun;
        [reflexivity | eapply rules_nonempty_of_match, Hex | exact Hex].
    + destruct input_items as [|first_item rest].
      * exists None. destruct rules as [|r0 rules']; [reflexivity|].
        unfold find_best_recommendation. cbn [empty].
        unfold bind at 1. rewrite select_antecedent_run.
        rewrite (no_match_filter_nil _ _ Hno). reflexivity.
      * destruct rules as [|r0 rules']; [exists None; reflexivity|].
        rewrite find_best_recommendation_fallback; [|congruence|exact Hno].
        cbv zeta. destruct (Hdec [first_item]) as [Hex1 | Hno1].
        -- destruct (best_of_matches _ [first_item] Hwf Hex1) as (_ & c & _ & _ & Hrun).
           exists (Some c).
           rewrite (some_match_filter_cons _ _ Hex1). cbn [negb].
           rewrite Hrun. reflexivity.
        -- exists None. rewrite (no_match_filter_nil _ _ Hno1). reflexivity.
  - intros ->. reflexivity.
  - intros ->. destruct rules as [|r0 rules']; [reflexivity|].
    assert (Hno : forall r, In r (r0 :: rules') -> ~ matches [] r).
    { intros r Hr Hm. unfold rule_set_wf in Hwf. rewrite Forall_forall in Hwf.
      destruct (Hwf r Hr) as (Hant & _).
      destruct (antecedents r) as [|x xs] eqn:Ea; [congruence|].
      apply (proj1 (Hm x)). rewrite Ea. left. reflexivity. }
    unfold find_best_recommendation. cbn [empty].
    unfold bind at 1. rewrite select_antecedent_run.
    rewrite (no_match_filter_nil _ _ Hno). reflexivity.
Qed.

(* ================================================================= *)
(** * The two escalation ladders *)

Section Ladders.

Context {A : Type}.
Variable pass : float -> result (list A).
Variable ev : float -> event.
Variables t1 t2 t3 : float.

Lemma escalation_run_passes tr :
  exists passes,
    snd (escalation_run pass ev t1 t2 t3 tr) = tr ++ map ev passes /\
    passes = firstn (List.length passes) [t1; t2; t3] /\
    1 <= List.length passes <= 3 /\
    (2 <= List.length passes <-> pass t1 = Return []) /\
    (3 <= List.length passes <-> pass t1 = Return [] /\ pass t2 = Return []) /\
    fst (escalation_run pass ev t1 t2 t3 tr) = pass (last passes t1).
Proof.
  unfold escalation_run.
  destruct (pass t1) as [[|x1 l1]|e1] eqn:E1.
  - destruct (pass t2) as [[|x2 l2]|e2] eqn:E2.
    + exists [t1; t2; t3]. simpl. repeat split; auto; lia.
    + exists [t1; t2]. simpl. repeat split; auto; try lia;
        intros H; try lia; destruct H; discriminate.
    + exists [t1; t2]. simpl. repeat split; auto; try lia;
        intros H; try lia; destruct H; discriminate.
  - exists [t1]. simpl. repeat split; auto; try lia;
      intros H; try lia; try discriminate; destruct H; discriminate.
  - exists [t1]. simpl. repeat split; auto; try lia;
      intros H; try lia; try discriminate; destruct H; discriminate.
Qed.

End Ladders.

Section GeneratorFacts.

Variable apriori : transactions -> float -> result (list itemset_row).
Variable association_rules : list itemset_row -> float -> result (list rule).

Lemma call_apriori_run df s tr :
  call_apriori apriori df s tr = (apriori df s, tr ++ [Apriori_call s]).
Proof. reflexivity. Qed.

Lemma call_association_rules_run fi c tr :
  call_association_rules association_rules fi c tr =
  (association_rules fi c, tr ++ [Association_rules_call c]).
Proof. reflexivity. Qed.

(** Lines 71-79 run as the ladder over the three support constants. *)
Lemma mine_frequent_itemsets_run df tr :
  mine_frequent_itemsets apriori df tr =
  escalation_run (apriori df) Apriori_call
    MIN_SUPPORT_PRIMARY MIN_SUPPORT_SECONDARY MIN_SUPPORT_MINIMUM tr.
Proof.
  unfold mine_frequent_itemsets, escalation_run, bind.
  rewrite call_apriori_run.
  destruct (apriori df MIN_SUPPORT_PRIMARY) as [[|x1 l1]|e1]; cbn [empty]; try reflexivity.
  rewrite call_apriori_run.
  destruct (apriori df MIN_SUPPORT_SECONDARY) as [[|x2 l2]|e2]; cbn [empty];
    rewrite <- ?app_assoc; try reflexivity.
  rewrite call_apriori_run.
  destruct (apriori df MIN_SUPPORT_MINIMUM) as [fi|e3];
    rewrite <- ?app_assoc; reflexivity.
Qed.

(** Lines 84-100 run as the ladder over the caller's threshold and the two
    fallback constants. *)
Lemma derive_rules_run fi c tr :
  derive_rules association_rules fi c tr =
  escalation_run (association_rules fi) Association_rules_call
    c MIN_CONFIDENCE_SECONDARY MIN_CONFIDENCE_MINIMUM tr.
Proof.
  unfold derive_rules, escalation_run, bind.
  rewrite call_association_rules_run.
  destruct (association_rules fi c) as [[|x1 l1]|e1]; cbn [empty]; try reflexivity.
  rewrite call_association_rules_run.
  destruct (association_rules fi MIN_CONFIDENCE_SECONDARY) as [[|x2 l2]|e2]; cbn [empty];
    rewrite <- ?app_assoc; try reflexivity.
  rewrite call_association_rules_run.
  destruct (association_rules fi MIN_CONFIDENCE_MINIMUM) as [rs|e3];
    rewrite <- ?app_assoc; reflexivity.
Qed.

(** The function as its two stages and the handler. *)
Lemma generate_association_rules_run df c tr :
  generate_association_rules apriori association_rules df c tr =
  match mine_frequent_itemsets apriori df tr with
  | (Return fi, tr1) =>
      match derive_rules association_rules fi c tr1 with
      | (Raise (Exception _), tr2) => (Return [], tr2)
      | other => other
      end
  | (Raise (Exception _), tr1) => (Return [], tr1)
  | (Raise (BaseException what), tr1) => (Raise (BaseException what), tr1)
  end.
Proof.
  unfold generate_association_rules, try_except_Exception, bind, ret.
  destruct (mine_frequent_itemsets apriori df tr) as [[fi|[w|w]] tr1]; reflexivity.
Qed.

End GeneratorFacts.

Lemma support_passes_app tr1 tr2 :
  support_passes (tr1 ++ tr2) = support_passes tr1 ++ support_passes tr2.
Proof.
  induction tr1 as [|[s|c|k] tr1 IH]; simpl; rewrite ?IH; reflexivity.
Qed.

Lemma confidence_passes_app tr1 tr2 :
  confidence_passes (tr1 ++ tr2) = confidence_passes tr1 ++ confidence_passes tr2.
Proof.
  induction tr1 as [|[s|c|k] tr1 IH]; simpl; rewrite ?IH; reflexivity.
Qed.

Lemma support_passes_apriori l : support_passes (map Apriori_call l) = l.
Proof. induction l as [|x l IH]; simpl; rewrite ?IH; reflexivity. Qed.

Lemma support_passes_association_rules l :
  support_passes (map Association_rules_call l) = [].
Proof. induction l as [|x l IH]; simpl; rewrite ?IH; reflexivity. Qed.

Lemma confidence_passes_association_rules l :
  confidence_passes (map Association_rules_call l) = l.
Proof. induction l as [|x l IH]; simpl; rewrite ?IH; reflexivity. Qed.

Lemma confidence_passes_apriori l : confidence_passes (map Apriori_call l) = [].
Proof. induction l as [|x l IH]; simpl; rewrite ?IH; reflexivity. Qed.

(** The trace of a whole run: the support passes, then the confidence
    passes if mining returned. *)
Lemma generate_association_rules_trace apriori association_rules df c tr :
  exists supports confidences,
    snd (generate_association_rules apriori association_rules df c tr) =
      tr ++ map Apriori_call supports ++ map Association_rules_call confidences /\
    snd (mine_frequent_itemsets apriori df tr) = tr ++ map Apriori_call supports /\
    (forall fi tr1,
        mine_frequent_itemsets apriori df tr = (Return fi, tr1) ->
        snd (derive_rules association_rules fi c tr1) =
        tr1 ++ map Association_rules_call confidences) /\
    (forall e, fst (mine_frequent_itemsets apriori df tr) = Raise e -> confidences = []).
Proof.
  destruct (escalation_run_passes (apriori df) Apriori_call
              MIN_SUPPORT_PRIMARY MIN_SUPPORT_SECONDARY MIN_SUPPORT_MINIMUM tr)
    as (supports & Hs & _).
  rewrite <- mine_frequent_itemsets_run in Hs.
  rewrite generate_association_rules_run.
  destruct (mine_frequent_itemsets apriori df tr) as [[fi|e] tr1] eqn:Em;
    simpl in Hs; subst tr1.
  - destruct (escalation_run_passes (association_rules fi) Association_rules_call
                c MIN_CONFIDENCE_SECONDARY MIN_CONFIDENCE_MINIMUM
                (tr ++ map Apriori_call supports))
      as (confidences & Hc & _).
    rewrite <- derive_rules_run in Hc.
    exists supports, confidences. repeat split.
    + destruct (derive_rules association_rules fi c (tr ++ map Apriori_call supports))
        as [[rs|[w|w]] tr2]; simpl in Hc |- *; subst tr2;
        rewrite <- app_assoc; reflexivity.
    + intros fi' tr1' E. inversion E; subst. exact Hc.
    + intros e E. discriminate E.
  - exists supports, []. repeat split.
    + destruct e as [w|w]; simpl; rewrite app_nil_r; reflexivity.
    + intros fi' tr1' E. discriminate E.
Qed.

(** C4.  The mining stage makes its first pass at 0.005; it makes a second
    pass, at 0.002, exactly when the first returned a frame without rows, and
    a third, at 0.001, exactly when the second did so too; there are at most
    three passes, in that order, the stage ends with the result of the last
    pass made, and three empty results are returned as an empty frame. *)
Theorem support_escalation
    (apriori : transactions -> float -> result (list itemset_row))
    (df : transactions) (tr : list event) :
  support_thresholds = [0.005; 0.002; 0.001]%float /\
  exists passes,
    snd (mine_frequent_itemsets apriori df tr) = tr ++ map Apriori_call passes /\
    passes = firstn (List.length passes) support_thresholds /\
    1 <= List.length passes <= 3 /\
    (2 <= List.length passes <-> apriori df MIN_SUPPORT_PRIMARY = Return []) /\
    (3 <= List.length passes <->
       apriori df MIN_SUPPORT_PRIMARY = Return [] /\
       apriori df MIN_SUPPORT_SECONDARY = Return []) /\
    fst (mine_frequent_itemsets apriori df tr) =
      apriori df (last passes MIN_SUPPORT_PRIMARY) /\
    (apriori df MIN_SUPPORT_PRIMARY = Return [] ->
     apriori df MIN_SUPPORT_SECONDARY = Return [] ->
     apriori df MIN_SUPPORT_MINIMUM = Return [] ->
     mine_frequent_itemsets apriori df tr =
       (Return [], tr ++ map Apriori_call support_thresholds)) /\
    forall association_rules c,
      support_passes
        (snd (generate_association_rules apriori association_rules df c [])) = passes.
Proof.
  split; [reflexivity|].
  destruct (escalation_run_passes (apriori df) Apriori_call
              MIN_SUPPORT_PRIMARY MIN_SUPPORT_SECONDARY MIN_SUPPORT_MINIMUM tr)
    as (passes & Htr & Hpre & Hlen & H2 & H3 & Hres).
  rewrite <- mine_frequent_itemsets_run in Htr, Hres.
  exists passes.
  split; [exact Htr|]. split; [exact Hpre|]. split; [exact Hlen|].
  split; [exact H2|]. split; [exact H3|]. split; [exact Hres|]. split.
  - intros E1 E2 E3. rewrite mine_frequent_itemsets_run. unfold escalation_run.
    rewrite E1, E2, E3. reflexivity.
  - intros association_rules c.
    destruct (generate_association_rules_trace apriori association_rules df c [])
      as (supports & confidences & Hg & Hm & _).
    rewrite Hg. simpl. rewrite support_passes_app, support_passes_apriori,
      support_passes_association_rules, app_nil_r.
    destruct (escalation_run_passes (apriori df) Apriori_call
                MIN_SUPPORT_PRIMARY MIN_SUPPORT_SECONDARY MIN_SUPPORT_MINIMUM [])
      as (passes0 & Htr0 & Hpre0 & Hlen0 & H20 & H30 & _).
    rewrite <- mine_frequent_itemsets_run in Htr0.
    rewrite Hm in Htr0. simpl in Htr0.
    apply (f_equal support_passes) in Htr0.
    rewrite !support_passes_apriori in Htr0. subst supports.
    rewrite Hpre, Hpre0. f_equal.
    destruct H2 as [H2a H2b], H3 as [H3a H3b], H20 as [H20a H20b], H30 as [H30a H30b].
    destruct (le_lt_dec 3 (List.length passes)) as [L3|L3].
    + pose proof (H30b (H3a L3)). lia.
    + destruct (le_lt_dec 3 (List.length passes0)) as [L30|L30].
      * pose proof (H3b (H30a L30)). lia.
      * destruct (le_lt_dec 2 (List.length passes)) as [L2|L2].
        -- pose proof (H20b (H2a L2)). lia.
        -- destruct (le_lt_dec 2 (List.length passes0)) as [L20|L20].
           ++ pose proof (H2b (H20a L20)). lia.
           ++ lia.
Qed.

(** For a caller's threshold above 0.005 the three passes of the confidence
    ladder are made at strictly decreasing thresholds. *)
Lemma confidence_ladder_decreasing c :
  (MIN_CONFIDENCE_SECONDARY <? c)%float = true ->
  strictly_decreasing [c; MIN_CONFIDENCE_SECONDARY; MIN_CONFIDENCE_MINIMUM] = true.
Proof. intros H. simpl. rewrite H. reflexivity. Qed.

(** C5, as amended.  For a caller's threshold above 0.005, the default 0.01
    included: the first pass is made at the caller's threshold; when it
    returns no rule, generation is retried on the same frequent itemsets at
    0.005, and when that returns no rule either, at 0.001; each pass made is
    at a threshold strictly below the one before; no pass follows a result
    with rows, a failure or the third pass; and the stage ends with the
    result of the last pass made. *)
Theorem confidence_escalation
    (association_rules : list itemset_row -> float -> result (list rule))
    (fi : list itemset_row) (c : float) (tr : list event) :
  (MIN_CONFIDENCE_SECONDARY <? c)%float = true ->
  exists passes,
    snd (derive_rules association_rules fi c tr) =
      tr ++ map Association_rules_call passes /\
    passes = firstn (List.length passes)
               [c; MIN_CONFIDENCE_SECONDARY; MIN_CONFIDENCE_MINIMUM] /\
    1 <= List.length passes <= 3 /\
    strictly_decreasing passes = true /\
    (2 <= List.length passes <-> association_rules fi c = Return []) /\
    (3 <= List.length passes <->
       association_rules fi c = Return [] /\
       association_rules fi MIN_CONFIDENCE_SECONDARY = Return []) /\
    fst (derive_rules association_rules fi c tr) =
      association_rules fi (last passes c).
Proof.
  intros Hc.
  destruct (escalation_run_passes (association_rules fi) Association_rules_call
              c MIN_CONFIDENCE_SECONDARY MIN_CONFIDENCE_MINIMUM tr)
    as (passes & Htr & Hpre & Hlen & H2 & H3 & Hres).
  rewrite <- derive_rules_run in Htr, Hres.
  exists passes.
  split; [exact Htr|]. split; [exact Hpre|]. split; [exact Hlen|].
  split; [|split; [exact H2|split; [exact H3|exact Hres]]].
  rewrite Hpre.
  destruct (List.length passes) as [|[|[|[|n]]]]; simpl; rewrite ?Hc; reflexivity.
Qed.

(** C6.  When the three support passes return frames without rows, and the
    rule generator refuses such a frame as mlxtend's does, the function makes
    the one call of [association_rules] at the caller's threshold, no retry,
    and returns the empty frame. *)
Theorem empty_mining_yields_no_rules
    (apriori : transactions -> float -> result (list itemset_row))
    (association_rules : list itemset_row -> float -> result (list rule))
    (df : transactions) (c : float) (tr : list event) :
  apriori df MIN_SUPPORT_PRIMARY = Return [] ->
  apriori df MIN_SUPPORT_SECONDARY = Return [] ->
  apriori df MIN_SUPPORT_MINIMUM = Return [] ->
  rejects_empty_frame association_rules ->
  generate_association_rules apriori association_rules df c tr =
  (Return [],
   tr ++ map Apriori_call support_thresholds ++ [Association_rules_call c]).
Proof.
  intros E1 E2 E3 Hrej.
  rewrite generate_association_rules_run, mine_frequent_itemsets_run.
  unfold escalation_run at 1. rewrite E1, E2, E3.
  rewrite derive_rules_run. unfold escalation_run.
  destruct (Hrej c) as [what Hc]. rewrite Hc.
  simpl. rewrite <- app_assoc. reflexivity.
Qed.

(** Had the rule generator answered a frame without rows with a frame
    without rows, the result would be the same empty frame, reached after
    the three confidence passes. *)
Lemma empty_mining_tolerant_generator
    (apriori : transactions -> float -> result (list itemset_row))
    (association_rules : list itemset_row -> float -> result (list rule))
    (df : transactions) (c : float) (tr : list event) :
  apriori df MIN_SUPPORT_PRIMARY = Return [] ->
  apriori df MIN_SUPPORT_SECONDARY = Return [] ->
  apriori df MIN_SUPPORT_MINIMUM = Return [] ->
  (forall c', association_rules [] c' = Return []) ->
  generate_association_rules apriori association_rules df c tr =
  (Return [],
   tr ++ map Apriori_call support_thresholds
      ++ map Association_rules_call
           [c; MIN_CONFIDENCE_SECONDARY; MIN_CONFIDENCE_MINIMUM]).
Proof.
  intros E1 E2 E3 Hempty.
  rewrite generate_association_rules_run, mine_frequent_itemsets_run.
  unfold escalation_run at 1. rewrite E1, E2, E3.
  rewrite derive_rules_run. unfold escalation_run.
  rewrite !Hempty. simpl. rewrite <- app_assoc. reflexivity.
Qed.

(** C7.  Whatever error the library calls raise, the function returns a
    frame; and the frame is the empty one whenever mining or rule generation
    raised. *)
Theorem generation_never_fails
    (apriori : transactions -> float -> result (list itemset_row))
    (association_rules : list itemset_row -> float -> result (list rule))
    (df : transactions) (c : float) (tr : list event) :
  raises_only_errors apriori ->
  raises_only_errors association_rules ->
  exists rules tr',
    generate_association_rules apriori association_rules df c tr = (Return rules, tr') /\
    (forall e, fst (mine_frequent_itemsets apriori df tr) = Raise e -> rules = []) /\
    (forall fi tr1 e,
        mine_frequent_itemsets apriori df tr = (Return fi, tr1) ->
        fst (derive_rules association_rules fi c tr1) = Raise e -> rules = []).
Proof.
  intros Ha Hr.
  destruct (escalation_run_passes (apriori df) Apriori_call
              MIN_SUPPORT_PRIMARY MIN_SUPPORT_SECONDARY MIN_SUPPORT_MINIMUM tr)
    as (supports & _ & _ & _ & _ & _ & Hres).
  rewrite <- mine_frequent_itemsets_run in Hres.
  rewrite generate_association_rules_run.
  destruct (mine_frequent_itemsets apriori df tr) as [[fi|[w|w]] tr1] eqn:Em;
    simpl in Hres.
  - destruct (escalation_run_passes (association_rules fi) Association_rules_call
                c MIN_CONFIDENCE_SECONDARY MIN_CONFIDENCE_MINIMUM tr1)
      as (confidences & _ & _ & _ & _ & _ & Hres').
    rewrite <- derive_rules_run in Hres'.
    destruct (derive_rules association_rules fi c tr1) as [[rs|[w|w]] tr2] eqn:Ed;
      simpl in Hres'.
    + exists rs, tr2. split; [reflexivity|]. split.
      * intros e E. discriminate E.
      * intros fi' tr1' e E. inversion E; subst. rewrite Ed. discriminate.
    + exists [], tr2. repeat split; reflexivity.
    + exfalso. symmetry in Hres'. exact (Hr _ _ _ Hres').
  - exists [], tr1. repeat split; reflexivity.
  - exfalso. symmetry in Hres. exact (Ha _ _ _ Hres).
Qed.

(** No [Exception] leaves the function, whatever the library calls do. *)
Lemma generate_association_rules_catches apriori association_rules df c tr what :
  fst (generate_association_rules apriori association_rules df c tr)
  <> Raise (Exception what).
Proof.
  rewrite generate_association_rules_run.
  destruct (mine_frequent_itemsets apriori df tr) as [[fi|[w|w]] tr1]; simpl;
    try discriminate.
  destruct (derive_rules association_rules fi c tr1) as [[rs|[w|w]] tr2]; simpl;
    discriminate.
Qed.

(** C8.  Both ladders of constants are strictly decreasing, 0.005 > 0.002 >
    0.001 for support and 0.01 > 0.005 > 0.001 for confidence; and they are
    fixed: whatever the data and whatever the library returns, the support
    passes of a run are an initial segment of the first list, and the
    confidence passes after the caller's own are an initial segment of the
    tail of the second. *)
Theorem thresholds_fixed_and_decreasing :
  support_thresholds = [0.005; 0.002; 0.001]%float /\
  confidence_thresholds = [0.01; 0.005; 0.001]%float /\
  strictly_decreasing support_thresholds = true /\
  strictly_decreasing confidence_thresholds = true /\
  forall apriori association_rules df c,
    let tr := snd (generate_association_rules apriori association_rules df c []) in
    (exists n, support_passes tr = firstn n support_thresholds) /\
    (exists n, tl (confidence_passes tr) = firstn n (tl confidence_thresholds)).
Proof.
  split; [reflexivity|]. split; [reflexivity|].
  split; [reflexivity|]. split; [reflexivity|].
  intros apriori association_rules df c tr.
  destruct (generate_association_rules_trace apriori association_rules df c [])
    as (supports & confidences & Hg & Hm & Hd & Hraise).
  destruct (escalation_run_passes (apriori df) Apriori_call
              MIN_SUPPORT_PRIMARY MIN_SUPPORT_SECONDARY MIN_SUPPORT_MINIMUM [])
    as (passes & Htr & Hpre & _).
  rewrite <- mine_frequent_itemsets_run in Htr.
  rewrite Hm in Htr. simpl in Htr.
  apply (f_equal support_passes) in Htr. rewrite !support_passes_apriori in Htr.
  subst passes. subst tr. rewrite Hg. simpl.
  rewrite support_passes_app, support_passes_apriori,
    support_passes_association_rules, app_nil_r.
  rewrite confidence_passes_app, confidence_passes_apriori,
    confidence_passes_association_rules. simpl.
  split.
  - exists (List.length supports). exact Hpre.
  - destruct (mine_frequent_itemsets apriori df []) as [[fi|e] tr1] eqn:Em.
    + specialize (Hd fi tr1 eq_refl).
      destruct (escalation_run_passes (association_rules fi) Association_rules_call
                  c MIN_CONFIDENCE_SECONDARY MIN_CONFIDENCE_MINIMUM tr1)
        as (passes & Hc & Hcpre & Hclen & _).
      rewrite <- derive_rules_run in Hc. rewrite Hd in Hc.
      apply app_inv_head in Hc.
      apply (f_equal confidence_passes) in Hc.
      rewrite !confidence_passes_association_rules in Hc. subst passes.
      rewrite Hcpre.
      destruct (List.length confidences) as [|n]; [exists 0; reflexivity|].
      exists n. reflexivity.
    + rewrite (Hraise e eq_refl). exists 0. reflexivity.
Qed.

(** C10.  Only the first pass of the confidence ladder is made at the
    caller's threshold [c]: the passes are an initial segment of
    [c; 0.005; 0.001], the second being made exactly when the first returned
    no rule and the third exactly when the second did so too.  Hence for [c]
    below 0.005 the first retry is made at a threshold that is above [c],
    not below it. *)
Theorem retries_ignore_caller_threshold
    (association_rules : list itemset_row -> float -> result (list rule))
    (fi : list itemset_row) (c : float) (tr : list event) :
  MIN_CONFIDENCE_SECONDARY = 0.005%float /\
  MIN_CONFIDENCE_MINIMUM = 0.001%float /\
  (exists passes,
      snd (derive_rules association_rules fi c tr) =
        tr ++ map Association_rules_call passes /\
      passes = firstn (List.length passes)
                 [c; MIN_CONFIDENCE_SECONDARY; MIN_CONFIDENCE_MINIMUM] /\
      1 <= List.length passes <= 3 /\
      (2 <= List.length passes <-> association_rules fi c = Return []) /\
      (3 <= List.length passes <->
         association_rules fi c = Return [] /\
         association_rules fi MIN_CONFIDENCE_SECONDARY = Return [])) /\
  ((c <? MIN_CONFIDENCE_SECONDARY)%float = true ->
   association_rules fi c = Return [] ->
   exists rest,
     confidence_passes (snd (derive_rules association_rules fi c [])) =
       c :: MIN_CONFIDENCE_SECONDARY :: rest /\
     (MIN_CONFIDENCE_SECONDARY <? c)%float = false /\
     (MIN_CONFIDENCE_SECONDARY <=? c)%float = false).
Proof.
  split; [reflexivity|]. split; [reflexivity|]. split.
  - destruct (escalation_run_passes (association_rules fi) Association_rules_call
                c MIN_CONFIDENCE_SECONDARY MIN_CONFIDENCE_MINIMUM tr)
      as (passes & Htr & Hpre & Hlen & H2 & H3 & _).
    rewrite <- derive_rules_run in Htr.
    exists passes.
    split; [exact Htr|]. split; [exact Hpre|]. split; [exact Hlen|].
    split; [exact H2|exact H3].
  - intros Hlt Hempty.
    rewrite derive_rules_run. unfold escalation_run. rewrite Hempty.
    exists (match association_rules fi MIN_CONFIDENCE_SECONDARY with
            | Return [] => [MIN_CONFIDENCE_MINIMUM]
            | _ => []
            end).
    split; [|split].
    + destruct (association_rules fi MIN_CONFIDENCE_SECONDARY) as [[|r rs]|e];
        reflexivity.
    + apply FloatOrder.ltb_asym, Hlt.
    + apply FloatOrder.ltb_leb_false, Hlt.
Qed.

(* ================================================================= *)
(** * Strings: case folding, trimming, splitting *)

Lemma isspace_lower_char c : isspace (lower_char c) = isspace c.
Proof. destruct c as [[] [] [] [] [] [] [] []]; reflexivity. Qed.

Lemma lower_char_idem c : lower_char (lower_char c) = lower_char c.
Proof. destruct c as [[] [] [] [] [] [] [] []]; reflexivity. Qed.

Lemma lower_idem s : lower (lower s) = lower s.
Proof.
  induction s as [|c s IH]; simpl; [reflexivity|].
  rewrite lower_char_idem, IH. reflexivity.
Qed.

Lemma lstrip_lower s : lstrip (lower s) = lower (lstrip s).
Proof.
  induction s as [|c s IH]; simpl; [reflexivity|].
  rewrite isspace_lower_char. destruct (isspace c); [exact IH | reflexivity].
Qed.

Lemma rstrip_lower s : rstrip (lower s) = lower (rstrip s).
Proof.
  induction s as [|c s IH]; simpl; [reflexivity|].
  rewrite IH, isspace_lower_char.
  destruct (rstrip s) as [|d r]; simpl; [destruct (isspace c)|]; reflexivity.
Qed.

Lemma strip_lower s : strip (lower s) = lower (strip s).
Proof. unfold strip. rewrite lstrip_lower, rstrip_lower. reflexivity. Qed.

Lemma rstrip_idem s : rstrip (rstrip s) = rstrip s.
Proof.
  induction s as [|c s IH]; simpl; [reflexivity|].
  destruct (rstrip s) as [|d r] eqn:E.
  - destruct (isspace c) eqn:Ec; simpl; [reflexivity|]. rewrite Ec. reflexivity.
  - change (rstrip (String c (String d r))) with
      (match rstrip (String d r) with
       | EmptyString => if isspace c then EmptyString else String c EmptyString
       | r' => String c r'
       end).
    rewrite IH. reflexivity.
Qed.

(** The head of a string, if it is not white space, survives [rstrip]. *)
Lemma rstrip_head c s :
  isspace c = false -> exists r, rstrip (String c s) = String c r.
Proof.
  intros Hc. simpl. destruct (rstrip s) as [|d r].
  - rewrite Hc. exists EmptyString. reflexivity.
  - exists (String d r). reflexivity.
Qed.

Lemma lstrip_head s c s' : lstrip s = String c s' -> isspace c = false.
Proof.
  induction s as [|a s IH]; simpl; [discriminate|].
  destruct (isspace a) eqn:Ea; [exact IH|].
  intros E. inversion E; subst. exact Ea.
Qed.

Lemma lstrip_fixed c s : isspace c = false -> lstrip (String c s) = String c s.
Proof. intros H. simpl. rewrite H. reflexivity. Qed.

Lemma strip_head s c s' : strip s = String c s' -> isspace c = false.
Proof.
  unfold strip. destruct (lstrip s) as [|a t] eqn:E; [discriminate|].
  pose proof (lstrip_head _ _ _ E) as Ha.
  destruct (rstrip_head a t Ha) as [r Hr]. rewrite Hr.
  intros E'. inversion E'; subst. exact Ha.
Qed.

Lemma append_single_inv s c a t :
  (s ++ String c EmptyString)%string = String a t ->
  (s = EmptyString /\ a = c /\ t = EmptyString) \/
  (exists s', s = String a s' /\ t = (s' ++ String c EmptyString)%string).
Proof.
  destruct s as [|b s']; simpl; intros E; inversion E; subst.
  - left. auto.
  - right. exists s'. auto.
Qed.

Lemma rstrip_last s : forall s' c,
  rstrip s = (s' ++ String c EmptyString)%string -> isspace c = false.
Proof.
  induction s as [|a s IH]; intros s' c; simpl.
  - destruct s'; discriminate.
  - destruct (rstrip s) as [|d r] eqn:E.
    + destruct (isspace a) eqn:Ea.
      * destruct s'; discriminate.
      * intros H. symmetry in H. apply append_single_inv in H.
        destruct H as [(_ & -> & _) | (s'' & _ & H)]; [exact Ea|].
        destruct s''; discriminate.
    + intros H. symmetry in H. apply append_single_inv in H.
      destruct H as [(_ & _ & H) | (s'' & _ & H)]; [discriminate|].
      apply (IH s'' c). exact H.
Qed.

Lemma strip_no_outer_space s : no_outer_space (strip s).
Proof.
  intros c [[s' E] | [s' E]].
  - exact (strip_head _ _ _ E).
  - unfold strip in E. exact (rstrip_last _ _ _ E).
Qed.

Lemma strip_idem s : strip (strip s) = strip s.
Proof.
  destruct (strip s) as [|c t] eqn:E; [reflexivity|].
  pose proof (strip_head _ _ _ E) as Hc.
  unfold strip at 1. rewrite (lstrip_fixed _ _ Hc).
  rewrite <- E. unfold strip. apply rstrip_idem.
Qed.

Lemma truthy_true_iff s : truthy s = true <-> s <> EmptyString.
Proof. destruct s; simpl; split; congruence. Qed.

(** Joining the pieces with commas gives the string back, and no piece
    holds a comma. *)
Lemma split_comma_nonempty s : split_comma s <> [].
Proof.
  destruct s as [|c s]; simpl; [discriminate|].
  destruct (Ascii.eqb c ","%char); [discriminate|].
  destruct (split_comma s); discriminate.
Qed.

Lemma split_comma_join s : String.concat ","%string (split_comma s) = s.
Proof.
  induction s as [|c s IH]; [reflexivity|].
  simpl. destruct (Ascii.eqb c ","%char) eqn:Ec.
  - apply Ascii.eqb_eq in Ec. subst c.
    pose proof (split_comma_nonempty s) as Hne.
    destruct (split_comma s) as [|p ps] eqn:E; [congruence|].
    change (String.concat ","%string (EmptyString :: p :: ps))
      with (String ","%char (String.concat ","%string (p :: ps))).
    rewrite IH. reflexivity.
  - pose proof (split_comma_nonempty s) as Hne.
    destruct (split_comma s) as [|p ps] eqn:E; [congruence|].
    destruct ps as [|q qs]; simpl in IH |- *; rewrite <- IH; reflexivity.
Qed.

Lemma split_comma_pieces s : Forall (fun p => has_comma p = false) (split_comma s).
Proof.
  induction s as [|c s IH]; simpl.
  - constructor; [reflexivity | constructor].
  - destruct (Ascii.eqb c ","%char) eqn:Ec.
    + constructor; [reflexivity | exact IH].
    + destruct (split_comma s) as [|p ps]; [repeat constructor; simpl; rewrite Ec; reflexivity|].
      inversion IH; subst. constructor; [|assumption].
      simpl. rewrite Ec. assumption.
Qed.

Lemma In_firstn {A : Type} (x : A) n l : In x (firstn n l) -> In x l.
Proof.
  revert l. induction n as [|n IH]; intros [|a l]; simpl; try tauto.
  intros [H | H]; [left; exact H | right; apply IH, H].
Qed.

(** C9.  The parser returns at most three items; they are the first three
    (in input order) of the cleaned pieces of the line, all of them when
    there are no more than three; every item is non-empty, has no white
    space at either end and no upper-case letter, and is the trimmed and
    case-folded form of a comma-separated piece; an item that occurs
    twice is kept twice. *)
Theorem parse_input_items_spec (input_str : string) :
  let items := parse_input_items input_str in
  List.length items <= 3 /\
  items = firstn 3 (cleaned_items input_str) /\
  (3 < List.length (cleaned_items input_str) -> List.length items = 3) /\
  (List.length (cleaned_items input_str) <= 3 -> items = cleaned_items input_str) /\
  cleaned_items input_str =
    filter (fun s => negb (String.eqb s EmptyString))
      (map (fun piece => lower (strip piece)) (split_comma input_str)) /\
  Forall (fun it =>
            it <> EmptyString /\
            strip it = it /\ no_outer_space it /\
            lower it = it /\
            exists piece, In piece (split_comma input_str) /\ it = lower (strip piece))
         items /\
  parse_input_items "milk, Milk ,MILK"%string = ["milk"; "milk"; "milk"]%string /\
  parse_input_items " Whole Milk ,, bread , ,Yogurt,eggs,tea"%string =
    ["whole milk"; "bread"; "yogurt"]%string.
Proof.
  intros items.
  assert (Hitems : items = firstn 3 (cleaned_items input_str)).
  { subst items. unfold parse_input_items.
    destruct (3 <? List.length (cleaned_items input_str)) eqn:E; [reflexivity|].
    apply Nat.ltb_ge in E. symmetry. apply firstn_all2. exact E. }
  split; [rewrite Hitems; apply firstn_le_length|].
  split; [exact Hitems|].
  split; [intros H; rewrite Hitems, length_firstn; lia|].
  split; [intros H; rewrite Hitems; apply firstn_all2; exact H|].
  split.
  { unfold cleaned_items. apply filter_ext. intros [|c s]; reflexivity. }
  split; [|split; reflexivity].
  rewrite Hitems. rewrite Forall_forall. intros it Hit.
  apply In_firstn in Hit. unfold cleaned_items in Hit.
  apply filter_In in Hit. destruct Hit as [Hin Htruthy].
  apply in_map_iff in Hin. destruct Hin as [piece [<- Hpiece]].
  split; [apply truthy_true_iff, Htruthy|].
  split; [rewrite <- strip_lower; apply strip_idem|].
  split; [rewrite <- strip_lower; apply strip_no_outer_space|].
  split; [apply lower_idem|].
  exists piece. split; [exact Hpiece | reflexivity].
Qed.

(* ================================================================= *)
(** * Worked instances *)

Ltac rules_wf :=
  unfold rule_set_wf;
  repeat (apply Forall_cons;
          [repeat split; try discriminate; reflexivity|]);
  apply Forall_nil.

(** Matching is decided by the comparison the resolver makes. *)
Lemma no_rule_matches_check rules key :
  forallb (fun r => negb (frozenset_eqb (antecedents r) (mk_frozenset key))) rules = true ->
  forall r, In r rules -> ~ matches key r.
Proof.
  rewrite forallb_forall. intros H r Hr Hm.
  apply frozenset_eqb_matches in Hm. specialize (H r Hr).
  rewrite Hm in H. discriminate H.
Qed.

Lemma some_rule_matches_check rules key :
  existsb (fun r => frozenset_eqb (antecedents r) (mk_frozenset key)) rules = true ->
  exists r, In r rules /\ matches key r.
Proof.
  rewrite existsb_exists. intros [r [Hr Hm]].
  exists r. split; [exact Hr | apply frozenset_eqb_matches, Hm].
Qed.

(** The examples of the specification: with a -> b at 1.0 and a -> c at
    0.667, the query [a] is answered b; the query [a, b], which no rule
    matches, is answered from the rules for [a] alone. *)
Example query_a : 
  find_best_recommendation ["a"]%string sample_rules [] =
  (Return (Some "b"%string), [Lookup ["a"]%string]).
Proof. reflexivity. Qed.

Example query_a_b :
  find_best_recommendation ["a"; "b"]%string sample_rules [] =
  (Return (Some "b"%string), [Lookup ["a"; "b"]%string; Lookup ["a"]%string]).
Proof. reflexivity. Qed.

(** Without the guarantee of a non-empty consequent the lookup raises. *)
Example hollow_rule_raises :
  fst (find_best_recommendation ["a"]%string [hollow_rule] []) =
  Raise (Exception "IndexError").
Proof. reflexivity. Qed.

Lemma exact_match_wins_witness :
  exists best consequent,
    max_confidence_match sample_rules ["a"]%string best /\
    In consequent (consequents best) /\
    forall tr,
      find_best_recommendation ["a"]%string sample_rules tr =
      (Return (Some consequent), tr ++ [Lookup (mk_frozenset ["a"]%string)]).
Proof.
  apply (exact_match_wins sample_rules ["a"]%string).
  - rules_wf.
  - apply some_rule_matches_check. reflexivity.
Defined.

Lemma first_item_fallback_witness :
  (exists best consequent,
      max_confidence_match sample_rules ["a"]%string best /\
      In consequent (consequents best) /\
      forall tr,
        find_best_recommendation ["a"; "b"]%string sample_rules tr =
        (Return (Some consequent),
         tr ++ [Lookup (mk_frozenset ["a"; "b"]%string);
                Lookup (mk_frozenset ["a"]%string)])) /\
  (forall tr,
      fst (find_best_recommendation ["z"; "a"]%string sample_rules tr) = Return None).
Proof.
  split.
  - apply (first_item_fallback sample_rules "a"%string ["b"]%string).
    + rules_wf.
    + apply no_rule_matches_check. reflexivity.
    + apply some_rule_matches_check. reflexivity.
  - apply (first_item_fallback sample_rules "z"%string ["a"]%string).
    + rules_wf.
    + apply no_rule_matches_check. reflexivity.
    + apply no_rule_matches_check. reflexivity.
Defined.

Lemma resolver_total_witness :
  (exists answer : option item,
      fst (find_best_recommendation [] sample_rules []) = Return answer) /\
  (sample_rules = [] ->
   fst (find_best_recommendation [] sample_rules []) = Return None) /\
  ([] = @nil item ->
   fst (find_best_recommendation [] sample_rules []) = Return None).
Proof.
  apply (resolver_total sample_rules [] []). rules_wf.
Defined.

Lemma empty_mining_yields_no_rules_witness :
  generate_association_rules
    (apriori_of []) (association_rules_of sample_rules)
    sample_df MIN_CONFIDENCE_PRIMARY [] =
  (Return [],
   [] ++ map Apriori_call support_thresholds
      ++ [Association_rules_call MIN_CONFIDENCE_PRIMARY]).
Proof.
  apply (empty_mining_yields_no_rules
           (apriori_of []) (association_rules_of sample_rules)
           sample_df MIN_CONFIDENCE_PRIMARY []).
  - reflexivity.
  - reflexivity.
  - reflexivity.
  - intros c. exists "ValueError"%string. reflexivity.
Defined.

Lemma generation_never_fails_witness :
  exists rules tr',
    generate_association_rules
      failing_apriori (association_rules_of sample_rules)
      sample_df MIN_CONFIDENCE_PRIMARY [] = (Return rules, tr') /\
    (forall e,
        fst (mine_frequent_itemsets failing_apriori sample_df []) = Raise e ->
        rules = []) /\
    (forall fi tr1 e,
        mine_frequent_itemsets failing_apriori sample_df [] = (Return fi, tr1) ->
        fst (derive_rules (association_rules_of sample_rules) fi
               MIN_CONFIDENCE_PRIMARY tr1) = Raise e ->
        rules = []).
Proof.
  apply (generation_never_fails
           failing_apriori (association_rules_of sample_rules)
           sample_df MIN_CONFIDENCE_PRIMARY []).
  - intros df s what H. discriminate H.
  - intros fi c what H. destruct fi; discriminate H.
Defined.

Lemma retries_ignore_caller_threshold_witness :
  exists rest,
    confidence_passes
      (snd (derive_rules (association_rules_of [faint_rule]) sample_itemsets
              0.002%float [])) =
      0.002%float :: MIN_CONFIDENCE_SECONDARY :: rest /\
    (MIN_CONFIDENCE_SECONDARY <? 0.002)%float = false /\
    (MIN_CONFIDENCE_SECONDARY <=? 0.002)%float = false.
Proof.
  apply (retries_ignore_caller_threshold
           (association_rules_of [faint_rule]) sample_itemsets 0.002%float []).
  - reflexivity.
  - reflexivity.
Defined.

(* ================================================================= *)
(** * Further facts about the resolver *)

Module FloatChains.

Lemma SFltb_SFleb_ltb a b c :
  SFltb a b = true -> SFleb b c = true -> SFltb a c = true.
Proof.
  unfold SFltb, SFleb, SFcompare.
  FloatOrder.sf_destruct a; FloatOrder.sf_destruct b; FloatOrder.sf_destruct c;
    try discriminate; try reflexivity; FloatOrder.sf_cases.
Qed.

Lemma SFleb_SFltb_ltb a b c :
  SFleb a b = true -> SFltb b c = true -> SFltb a c = true.
Proof.
  unfold SFltb, SFleb, SFcompare.
  FloatOrder.sf_destruct a; FloatOrder.sf_destruct b; FloatOrder.sf_destruct c;
    try discriminate; try reflexivity; FloatOrder.sf_cases.
Qed.

Lemma SFltb_SFleb a b : SFltb a b = true -> SFleb a b = true.
Proof.
  unfold SFltb, SFleb. destruct (SFcompare a b) as [[]|]; intros H;
    try discriminate; reflexivity.
Qed.

Lemma ltb_leb_ltb a b c :
  (a <? b)%float = true -> (b <=? c)%float = true -> (a <? c)%float = true.
Proof. rewrite !ltb_spec, leb_spec. apply SFltb_SFleb_ltb. Qed.

Lemma leb_ltb_ltb a b c :
  (a <=? b)%float = true -> (b <? c)%float = true -> (a <? c)%float = true.
Proof. rewrite !ltb_spec, leb_spec. apply SFleb_SFltb_ltb. Qed.

Lemma ltb_leb a b : (a <? b)%float = true -> (a <=? b)%float = true.
Proof. rewrite ltb_spec, leb_spec. apply SFltb_SFleb. Qed.

End FloatChains.

(** Where the picked row stands: the rows before it have a smaller
    confidence, the rows after it none greater. *)
Lemma argmax_from_first rest :
  forall best,
    Forall (fun r => is_nan (confidence r) = false) (best :: rest) ->
    exists before after,
      best :: rest = before ++ argmax_from best rest :: after /\
      (forall r, In r before ->
         (confidence r <? confidence (argmax_from best rest))%float = true) /\
      (forall r, In r after ->
         (confidence r <=? confidence (argmax_from best rest))%float = true).
Proof.
  induction rest as [|x rest IH]; intros best Hnum.
  - exists [], []. simpl. repeat split; intros r [].
  - inversion Hnum as [|? ? Hb Hrest]; subst.
    inversion Hrest as [|? ? Hx Hrest']; subst.
    simpl. rewrite (fill_nan_number _ Hb), (fill_nan_number _ Hx).
    destruct (confidence best <? confidence x)%float eqn:Hlt.
    + destruct (IH x Hrest) as (before & after & E & Hbefore & Hafter).
      exists (best :: before), after. split; [simpl; rewrite <- E; reflexivity|].
      split; [|exact Hafter].
      intros r [<- | Hr]; [|apply Hbefore, Hr].
      apply FloatChains.ltb_leb_ltb with (b := confidence x); [exact Hlt|].
      apply argmax_from_greatest; [exact Hrest | left; reflexivity].
    + assert (Hnum' : Forall (fun r => is_nan (confidence r) = false) (best :: rest))
        by (constructor; assumption).
      destruct (IH best Hnum') as (before & after & E & Hbefore & Hafter).
      destruct before as [|b0 before'].
      * simpl in E. injection E as Ebest Erest.
        exists [], (x :: rest). rewrite <- Ebest. split; [reflexivity|].
        split; [intros r []|].
        intros r [<- | Hr].
        -- apply FloatOrder.ltb_false_leb; assumption.
        -- rewrite Ebest. apply Hafter. rewrite <- Erest. exact Hr.
      * simpl in E. injection E as Ebest Erest. subst b0.
        exists (best :: x :: before'), after.
        split; [simpl; do 2 f_equal; exact Erest|].
        split; [|exact Hafter].
        intros r [<- | [<- | Hr]].
        -- apply Hbefore. left. reflexivity.
        -- apply FloatChains.leb_ltb_ltb with (b := confidence best).
           ++ apply FloatOrder.ltb_false_leb; assumption.
           ++ apply Hbefore. left. reflexivity.
        -- apply Hbefore. right. exact Hr.
Qed.

(** A filtered frame split at one of its rows splits the frame. *)
Lemma filter_split {A : Type} (f : A -> bool) (l : list A) :
  forall a x b,
    filter f l = a ++ x :: b ->
    exists l1 l2,
      l = l1 ++ x :: l2 /\ filter f l1 = a /\ filter f l2 = b /\ f x = true.
Proof.
  induction l as [|y l IH]; intros a x b E; simpl in E.
  - destruct a; discriminate.
  - destruct (f y) eqn:Ey.
    + destruct a as [|a0 a'].
      * simpl in E. inversion E; subst.
        exists [], l. simpl. repeat split; assumption.
      * simpl in E. inversion E; subst.
        destruct (IH a' x b H1) as (l1 & l2 & El & E1 & E2 & Ex).
        exists (a0 :: l1), l2. simpl. rewrite Ey, E1, <- El. repeat split; assumption.
    + destruct (IH a x b E) as (l1 & l2 & El & E1 & E2 & Ex).
      exists (y :: l1), l2. simpl. rewrite Ey, <- El. repeat split; assumption.
Qed.

(** The answer read off a non-empty frame of well-formed rows: the first
    element of the consequent of the first row of greatest confidence. *)
Lemma best_consequent_first frame :
  frame <> [] -> Forall rule_wf frame ->
  exists before best after consequent others,
    frame = before ++ best :: after /\
    (forall r, In r before -> (confidence r <? confidence best)%float = true) /\
    (forall r, In r after -> (confidence r <=? confidence best)%float = true) /\
    consequents best = consequent :: others /\
    forall tr, best_consequent frame tr = (Return (Some consequent), tr).
Proof.
  intros Hne Hwf. destruct frame as [|r0 rest]; [congruence|].
  assert (Hnum : Forall (fun r => is_nan (confidence r) = false) (r0 :: rest)).
  { eapply Forall_impl; [|exact Hwf]. intros r (_ & _ & H). exact H. }
  destruct (argmax_from_first rest r0 Hnum) as (before & after & E & Hb & Ha).
  set (best := argmax_from r0 rest) in *.
  assert (Hin : In best (r0 :: rest)) by apply argmax_from_In.
  assert (Hbest : rule_wf best) by (rewrite Forall_forall in Hwf; apply Hwf, Hin).
  destruct Hbest as (_ & Hcons & _).
  destruct (consequents best) as [|c cs] eqn:Ec; [congruence|].
  exists before, best, after, c, cs. repeat split; try assumption.
  intros tr. unfold best_consequent, bind, lift, loc_idxmax.
  assert (Hn0 : is_nan (confidence r0) = false) by (inversion Hnum; assumption).
  cbn [forallb]. rewrite Hn0. cbn [andb]. fold best.
  unfold first_element. rewrite Ec. reflexivity.
Qed.

Lemma best_consequent_trace frame tr :
  best_consequent frame tr = (fst (best_consequent frame []), tr).
Proof.
  unfold best_consequent, bind, lift, ret.
  destruct (loc_idxmax frame) as [best|e]; [|reflexivity].
  destruct (first_element (consequents best)); reflexivity.
Qed.

Lemma rows_matching_In key rules r :
  In r (rows_matching key rules) <-> In r rules /\ matches key r.
Proof. apply select_In. Qed.

(** The answer depends on the frame only through the rows that match the
    query and the rows that match its first item. *)
Lemma find_best_recommendation_value input_items rules tr :
  fst (find_best_recommendation input_items rules tr) =
  answer_of_frames input_items
    (rows_matching input_items rules)
    (rows_matching (firstn 1 input_items) rules).
Proof.
  unfold find_best_recommendation, answer_of_frames, rows_matching.
  destruct rules as [|r0 rules'].
  - simpl. destruct input_items; reflexivity.
  - cbn [empty]. set (rules := r0 :: rules').
    unfold bind at 1. rewrite select_antecedent_run.
    destruct (filter _ rules) as [|m ms] eqn:Em.
    + cbn [empty negb]. destruct input_items as [|first_item rest]; [reflexivity|].
      unfold bind at 1. rewrite select_antecedent_run.
      cbn [firstn].
      destruct (filter (fun r => frozenset_eqb (antecedents r) (mk_frozenset [first_item])) rules)
        as [|m1 ms1]; [reflexivity|].
      cbn [empty negb]. rewrite best_consequent_trace. reflexivity.
    + cbn [empty negb]. rewrite best_consequent_trace. reflexivity.
Qed.

Lemma best_consequent_origin frame c :
  fst (best_consequent frame []) = Return (Some c) ->
  exists r, In r frame /\ hd_error (consequents r) = Some c.
Proof.
  unfold best_consequent, bind, lift, ret, loc_idxmax, first_element.
  destruct frame as [|r0 rest]; [discriminate|].
  destruct (forallb _ (r0 :: rest)); [discriminate|].
  pose proof (argmax_from_In r0 rest) as Hin.
  destruct (consequents (argmax_from r0 rest)) as [|x xs] eqn:Ec; simpl;
    [discriminate|].
  intros E. injection E as <-.
  exists (argmax_from r0 rest). split; [exact Hin | rewrite Ec; reflexivity].
Qed.

Lemma matches_set_equal q1 q2 r : set_equal q1 q2 -> matches q1 r -> matches q2 r.
Proof.
  unfold matches, set_equal. intros H Hm x. rewrite Hm. apply H.
Qed.

Lemma rows_matching_set_equal q1 q2 rules :
  set_equal q1 q2 -> rows_matching q1 rules = rows_matching q2 rules.
Proof.
  intros H. unfold rows_matching. apply filter_ext. intros r.
  destruct (frozenset_eqb (antecedents r) (mk_frozenset q1)) eqn:E1;
    destruct (frozenset_eqb (antecedents r) (mk_frozenset q2)) eqn:E2;
    try reflexivity.
  - apply frozenset_eqb_matches in E1.
    apply (matches_set_equal _ _ _ H) in E1.
    apply frozenset_eqb_matches in E1. congruence.
  - apply frozenset_eqb_matches in E2.
    assert (H' : set_equal q2 q1) by (intros x; symmetry; apply H).
    apply (matches_set_equal _ _ _ H') in E2.
    apply frozenset_eqb_matches in E2. congruence.
Qed.

Lemma rows_matching_app key l1 l2 :
  rows_matching key (l1 ++ l2) = rows_matching key l1 ++ rows_matching key l2.
Proof. unfold rows_matching. apply filter_app. Qed.

Lemma rows_matching_none key rules :
  (forall r, In r rules -> ~ matches key r) -> rows_matching key rules = [].
Proof. apply no_match_filter_nil. Qed.

Lemma find_best_recommendation_origin (rules : list rule) (input_items : list item)
    (tr : list event) (c : item) :
  fst (find_best_recommendation input_items rules tr) = Return (Some c) ->
  exists r,
    In r rules /\
    (matches input_items r \/
     (input_items <> [] /\ matches (firstn 1 input_items) r /\
      forall r', In r' rules -> ~ matches input_items r')) /\
    hd_error (consequents r) = Some c.
Proof.
  rewrite find_best_recommendation_value. unfold answer_of_frames.
  destruct (rows_matching input_items rules) as [|m ms] eqn:Em; cbn [empty negb].
  - destruct input_items as [|first_item rest]; [discriminate|].
    destruct (rows_matching (firstn 1 (first_item :: rest)) rules) as [|m1 ms1] eqn:Em1;
      cbn [empty negb]; [discriminate|].
    intros H. apply best_consequent_origin in H. destruct H as (r & Hr & Hc).
    rewrite <- Em1 in Hr. apply rows_matching_In in Hr. destruct Hr as [Hr Hm].
    exists r. split; [exact Hr|]. split; [|exact Hc].
    right. split; [discriminate|]. split; [exact Hm|].
    intros r' Hr' Hm'.
    assert (Hin : In r' (rows_matching (first_item :: rest) rules))
      by (apply rows_matching_In; split; assumption).
    rewrite Em in Hin. exact Hin.
  - intros H. apply best_consequent_origin in H. destruct H as (r & Hr & Hc).
    rewrite <- Em in Hr. apply rows_matching_In in Hr. destruct Hr as [Hr Hm].
    exists r. split; [exact Hr|]. split; [left; exact Hm | exact Hc].
Qed.

(** X1.  Any item the resolver returns is the first element of the
    consequent of a rule of the frame whose antecedent is the set of the
    query's items or, when no rule matches the query, the singleton of its
    first item; no assumption on the frame is needed. *)
Theorem answer_origin (rules : list rule) (input_items : list item)
    (tr : list event) (c : item) :
  fst (find_best_recommendation input_items rules tr) = Return (Some c) ->
  exists r,
    In r rules /\
    (matches input_items r \/
     (input_items <> [] /\ matches (firstn 1 input_items) r /\
      forall r', In r' rules -> ~ matches input_items r')) /\
    hd_error (consequents r) = Some c.
Proof. apply find_best_recommendation_origin. Qed.

(** X2.  Ties and order: at the stage that decides (the query when a rule
    matches it, otherwise its first item) the answer is the first element of
    the consequent of the first row, in the frame's order, of greatest
    confidence among the rows matching the key: every matching row before
    it has a strictly smaller confidence, no matching row after it a
    greater one. *)
Theorem tie_break_first_row (rules : list rule) (input_items key : list item) :
  rule_set_wf rules ->
  (exists r, In r rules /\ matches key r) ->
  key = input_items \/
  (key = firstn 1 input_items /\ forall r, In r rules -> ~ matches input_items r) ->
  exists before best after consequent others,
    rules = before ++ best :: after /\
    matches key best /\
    (forall r, In r before -> matches key r ->
       (confidence r <? confidence best)%float = true) /\
    (forall r, In r after -> matches key r ->
       (confidence r <=? confidence best)%float = true) /\
    consequents best = consequent :: others /\
    forall tr,
      fst (find_best_recommendation input_items rules tr) = Return (Some consequent).
Proof.
  intros Hwf Hex Hstage.
  assert (Hne : rows_matching key rules <> []).
  { destruct Hex as [r Hr]. intros E. apply rows_matching_In in Hr.
    rewrite E in Hr. exact Hr. }
  destruct (best_consequent_first (rows_matching key rules) Hne (select_wf rules key Hwf))
    as (fb & best & fa & c & cs & Eframe & Hfb & Hfa & Ec & Hrun).
  destruct (filter_split _ _ _ _ _ Eframe) as (l1 & l2 & El & E1 & E2 & Ebest).
  exists l1, best, l2, c, cs.
  split; [exact El|]. split; [apply frozenset_eqb_matches, Ebest|].
  split.
  { intros r Hr Hm. apply Hfb. rewrite <- E1. apply filter_In.
    split; [exact Hr | apply frozenset_eqb_matches, Hm]. }
  split.
  { intros r Hr Hm. apply Hfa. rewrite <- E2. apply filter_In.
    split; [exact Hr | apply frozenset_eqb_matches, Hm]. }
  split; [exact Ec|].
  intros tr. rewrite find_best_recommendation_value. unfold answer_of_frames.
  destruct Hstage as [-> | [-> Hno]].
  - destruct (rows_matching input_items rules); [congruence|].
    cbn [empty negb]. rewrite Hrun. reflexivity.
  - rewrite (rows_matching_none _ _ Hno). cbn [empty negb].
    destruct input_items as [|first_item rest].
    + exfalso. destruct Hex as [r [Hr Hm]]. exact (Hno r Hr Hm).
    + destruct (rows_matching (firstn 1 (first_item :: rest)) rules); [congruence|].
      cbn [empty negb]. rewrite Hrun. reflexivity.
Qed.

(** X3.  When a rule matches the whole query, the answer does not depend on
    the order of the query's items nor on repetitions among them: two
    queries with the same items are answered alike. *)
Theorem exact_answer_ignores_order (rules : list rule) (q1 q2 : list item)
    (tr1 tr2 : list event) :
  set_equal q1 q2 ->
  (exists r, In r rules /\ matches q1 r) ->
  fst (find_best_recommendation q1 rules tr1) =
  fst (find_best_recommendation q2 rules tr2).
Proof.
  intros Heq [r [Hr Hm]].
  rewrite !find_best_recommendation_value. unfold answer_of_frames.
  rewrite <- (rows_matching_set_equal q1 q2 rules Heq).
  destruct (rows_matching q1 rules) as [|m ms] eqn:Em; [|reflexivity].
  exfalso. assert (Hin : In r (rows_matching q1 rules))
    by (apply rows_matching_In; split; assumption).
  rewrite Em in Hin. exact Hin.
Qed.

(** Without an exact match the first item decides, and the order matters. *)
Example fallback_depends_on_order :
  fst (find_best_recommendation ["a"; "z"]%string sample_rules []) = Return (Some "b"%string) /\
  fst (find_best_recommendation ["z"; "a"]%string sample_rules []) = Return None.
Proof. split; reflexivity. Qed.

(** X4.  With rules whose two sides are disjoint, as mlxtend emits them, an
    answer given on an exact match is never an item of the query. *)
Theorem exact_answer_is_new (rules : list rule) (input_items : list item) :
  rule_set_wf rules ->
  (forall r, In r rules -> forall x, In x (antecedents r) -> ~ In x (consequents r)) ->
  (exists r, In r rules /\ matches input_items r) ->
  exists c,
    (forall tr, fst (find_best_recommendation input_items rules tr) = Return (Some c)) /\
    ~ In c input_items.
Proof.
  intros Hwf Hdisj Hex.
  destruct (best_of_matches rules input_items Hwf Hex)
    as (best & c & (Hin & Hm & _) & Hc & Hrun).
  exists c. split.
  - intros tr. rewrite find_best_recommendation_exact, Hrun;
      [reflexivity | eapply rules_nonempty_of_match, Hex | exact Hex].
  - intros Hq. apply (Hdisj best Hin c); [apply Hm, Hq | exact Hc].
Qed.

(** The fallback can answer with an item the query already holds. *)
Example fallback_answer_in_query :
  fst (find_best_recommendation ["a"; "b"]%string sample_rules []) = Return (Some "b"%string).
Proof. reflexivity. Qed.

(** X5.  Rules about other antecedents do not change an answer: rows that
    match neither the query nor its first item can be added before or after
    the frame's rows, or removed, without effect. *)
Theorem unrelated_rules_do_not_matter (rules before after : list rule)
    (input_items : list item) (tr tr' : list event) :
  (forall r, In r (before ++ after) ->
     ~ matches input_items r /\ ~ matches (firstn 1 input_items) r) ->
  fst (find_best_recommendation input_items (before ++ rules ++ after) tr) =
  fst (find_best_recommendation input_items rules tr').
Proof.
  intros H.
  assert (Hb : forall key, key = input_items \/ key = firstn 1 input_items ->
                 rows_matching key before = [] /\ rows_matching key after = []).
  { intros key Hkey. split; apply rows_matching_none; intros r Hr Hm.
    - assert (Hin : In r (before ++ after)) by (apply in_or_app; left; exact Hr).
      destruct (H r Hin) as [H1 H2]. destruct Hkey as [-> | ->]; tauto.
    - assert (Hin : In r (before ++ after)) by (apply in_or_app; right; exact Hr).
      destruct (H r Hin) as [H1 H2]. destruct Hkey as [-> | ->]; tauto. }
  rewrite !find_best_recommendation_value.
  rewrite !rows_matching_app.
  destruct (Hb input_items (or_introl eq_refl)) as [-> ->].
  destruct (Hb (firstn 1 input_items) (or_intror eq_refl)) as [-> ->].
  simpl. rewrite !app_nil_r. reflexivity.
Qed.

(* ================================================================= *)
(** * Further facts about the parser *)

Lemma parse_input_items_firstn input_str :
  parse_input_items input_str = firstn 3 (cleaned_items input_str).
Proof.
  unfold parse_input_items.
  destruct (3 <? List.length (cleaned_items input_str)) eqn:E; [reflexivity|].
  apply Nat.ltb_ge in E. symmetry. apply firstn_all2. exact E.
Qed.

Lemma lower_empty s : lower s = EmptyString <-> s = EmptyString.
Proof. destruct s; simpl; split; intros H; try reflexivity; discriminate H. Qed.

Lemma filter_nil_iff {A : Type} (f : A -> bool) (l : list A) :
  filter f l = [] <-> forall x, In x l -> f x = false.
Proof.
  induction l as [|a l IH]; simpl.
  - split; [intros _ x [] | reflexivity].
  - destruct (f a) eqn:Ea.
    + split; [discriminate|]. intros H. specialize (H a (or_introl eq_refl)). congruence.
    + rewrite IH. split.
      * intros H x [<- | Hx]; [exact Ea | apply H, Hx].
      * intros H x Hx. apply H. right. exact Hx.
Qed.

(** X6.  The parser returns the empty list exactly when every
    comma-separated piece of the line is empty or white space: the empty
    line, blanks, and commas with nothing between them. *)
Theorem parse_input_items_empty_iff (input_str : string) :
  parse_input_items input_str = [] <->
  forall piece, In piece (split_comma input_str) -> strip piece = EmptyString.
Proof.
  rewrite parse_input_items_firstn.
  assert (H3 : firstn 3 (cleaned_items input_str) = [] <-> cleaned_items input_str = []).
  { destruct (cleaned_items input_str); simpl; split; intros H; try reflexivity;
      discriminate H. }
  rewrite H3. unfold cleaned_items. rewrite filter_nil_iff. split.
  - intros H piece Hp. apply lower_empty.
    specialize (H (lower (strip piece)) (in_map _ _ _ Hp)).
    destruct (lower (strip piece)); [reflexivity | discriminate H].
  - intros H x Hx. apply in_map_iff in Hx. destruct Hx as [piece [<- Hp]].
    rewrite (H piece Hp). reflexivity.
Qed.

Lemma eqb_comma_lower_char c :
  Ascii.eqb (lower_char c) ","%char = Ascii.eqb c ","%char.
Proof. destruct c as [[] [] [] [] [] [] [] []]; reflexivity. Qed.

Lemma has_comma_lower s : has_comma (lower s) = has_comma s.
Proof.
  induction s as [|c s IH]; simpl; [reflexivity|].
  rewrite eqb_comma_lower_char, IH. reflexivity.
Qed.

Lemma has_comma_lstrip s : has_comma s = false -> has_comma (lstrip s) = false.
Proof.
  induction s as [|c s IH]; simpl; [reflexivity|].
  intros H. apply orb_false_iff in H. destruct H as [Hc Hs].
  destruct (isspace c); [apply IH, Hs|]. simpl. rewrite Hc, Hs. reflexivity.
Qed.

Lemma has_comma_rstrip s : has_comma s = false -> has_comma (rstrip s) = false.
Proof.
  induction s as [|c s IH]; simpl; [reflexivity|].
  intros H. apply orb_false_iff in H. destruct H as [Hc Hs].
  specialize (IH Hs).
  destruct (rstrip s) as [|d r].
  - destruct (isspace c); simpl; [reflexivity|]. rewrite Hc. reflexivity.
  - simpl in IH |- *. rewrite Hc. exact IH.
Qed.

Lemma has_comma_strip s : has_comma s = false -> has_comma (strip s) = false.
Proof. intros H. unfold strip. apply has_comma_rstrip, has_comma_lstrip, H. Qed.

Lemma split_comma_no_comma x : has_comma x = false -> split_comma x = [x].
Proof.
  induction x as [|c x IH]; simpl; [reflexivity|].
  intros H. apply orb_false_iff in H. destruct H as [Hc Hx].
  rewrite Hc, (IH Hx). reflexivity.
Qed.

Lemma split_comma_app x t :
  has_comma x = false ->
  split_comma (x ++ String ","%char t)%string = x :: split_comma t.
Proof.
  induction x as [|c x IH]; simpl; [reflexivity|].
  intros H. apply orb_false_iff in H. destruct H as [Hc Hx].
  rewrite Hc, (IH Hx). reflexivity.
Qed.

Lemma cleaned_items_space t :
  cleaned_items (String " "%char t) = cleaned_items t.
Proof.
  unfold cleaned_items. cbn [split_comma].
  change (Ascii.eqb " "%char ","%char) with false. cbv iota.
  pose proof (split_comma_nonempty t) as Hne.
  destruct (split_comma t) as [|p ps]; [congruence|].
  cbn [map]. reflexivity.
Qed.

(** An item as the parser returns it. *)
Lemma cleaned_items_clean input_str it :
  In it (cleaned_items input_str) ->
  it <> EmptyString /\ has_comma it = false /\ strip it = it /\ lower it = it.
Proof.
  unfold cleaned_items. intros H. apply filter_In in H. destruct H as [Hin Ht].
  apply in_map_iff in Hin. destruct Hin as [piece [<- Hp]].
  split; [apply truthy_true_iff, Ht|].
  split.
  { rewrite has_comma_lower. apply has_comma_strip.
    pose proof (split_comma_pieces input_str) as Hall.
    rewrite Forall_forall in Hall. apply Hall, Hp. }
  split; [rewrite <- strip_lower; apply strip_idem | apply lower_idem].
Qed.

Lemma cleaned_items_join l :
  Forall (fun it => it <> EmptyString /\ has_comma it = false /\
                    strip it = it /\ lower it = it) l ->
  cleaned_items (String.concat ", "%string l) = l.
Proof.
  induction l as [|x l IH]; intros Hall; [reflexivity|].
  inversion Hall as [|? ? (Hne & Hcomma & Hstrip & Hlower) Hall']; subst.
  destruct l as [|y l'].
  - simpl. unfold cleaned_items. rewrite (split_comma_no_comma _ Hcomma).
    simpl. rewrite Hstrip, Hlower.
    apply truthy_true_iff in Hne. rewrite Hne. reflexivity.
  - change (String.concat ", "%string (x :: y :: l'))
      with (x ++ String ","%char (String " "%char (String.concat ", "%string (y :: l'))))%string.
    specialize (IH Hall'). rewrite <- cleaned_items_space in IH.
    unfold cleaned_items in IH |- *.
    rewrite (split_comma_app _ _ Hcomma). cbn [map filter].
    rewrite Hstrip, Hlower. apply truthy_true_iff in Hne. rewrite Hne.
    f_equal. exact IH.
Qed.

(** X7.  Round trip: the items the parser returns, written back as a
    comma-separated line, parse to themselves. *)
Theorem parse_input_items_round_trip (input_str : string) :
  parse_input_items (String.concat ", "%string (parse_input_items input_str)) =
  parse_input_items input_str.
Proof.
  set (items := parse_input_items input_str).
  assert (Hclean : Forall (fun it => it <> EmptyString /\ has_comma it = false /\
                                     strip it = it /\ lower it = it) items).
  { rewrite Forall_forall. intros it Hit. subst items.
    rewrite parse_input_items_firstn in Hit. apply In_firstn in Hit.
    exact (cleaned_items_clean _ _ Hit). }
  rewrite parse_input_items_firstn, (cleaned_items_join _ Hclean).
  apply firstn_all2. subst items. rewrite parse_input_items_firstn.
  apply firstn_le_length.
Qed.

(* ================================================================= *)
(** * Further facts about rule generation *)

Lemma strictly_decreasing_firstn3 a b c n :
  strictly_decreasing [a; b; c] = true ->
  strictly_decreasing (firstn n [a; b; c]) = true.
Proof.
  intros H. simpl in H. apply andb_true_iff in H. destruct H as [Hba H].
  apply andb_true_iff in H. destruct H as [Hcb _].
  destruct n as [|[|[|[|n]]]]; simpl; rewrite ?Hba, ?Hcb; reflexivity.
Qed.

(** The trace of a run: an initial segment of the support ladder, then an
    initial segment of the confidence ladder that starts at the caller's
    threshold. *)
Lemma generate_association_rules_passes apriori association_rules df c :
  exists n m,
    snd (generate_association_rules apriori association_rules df c []) =
      map Apriori_call (firstn n support_thresholds) ++
      map Association_rules_call
        (firstn m [c; MIN_CONFIDENCE_SECONDARY; MIN_CONFIDENCE_MINIMUM]).
Proof.
  destruct (generate_association_rules_trace apriori association_rules df c [])
    as (supports & confidences & Hg & Hm & Hd & Hraise).
  destruct (escalation_run_passes (apriori df) Apriori_call
              MIN_SUPPORT_PRIMARY MIN_SUPPORT_SECONDARY MIN_SUPPORT_MINIMUM [])
    as (passes & Htr & Hpre & _).
  rewrite <- mine_frequent_itemsets_run in Htr. rewrite Hm in Htr. simpl in Htr.
  apply (f_equal support_passes) in Htr. rewrite !support_passes_apriori in Htr.
  subst passes.
  exists (List.length supports).
  destruct (mine_frequent_itemsets apriori df []) as [[fi|e] tr1] eqn:Em.
  - specialize (Hd fi tr1 eq_refl).
    destruct (escalation_run_passes (association_rules fi) Association_rules_call
                c MIN_CONFIDENCE_SECONDARY MIN_CONFIDENCE_MINIMUM tr1)
      as (passes & Hc & Hcpre & _).
    rewrite <- derive_rules_run in Hc. rewrite Hd in Hc.
    apply app_inv_head in Hc.
    apply (f_equal confidence_passes) in Hc.
    rewrite !confidence_passes_association_rules in Hc. subst passes.
    exists (List.length confidences).
    unfold support_thresholds.
    rewrite Hg, app_nil_l, <- Hpre, <- Hcpre. reflexivity.
  - exists 0. unfold support_thresholds.
    rewrite Hg, (Hraise e eq_refl), app_nil_l, <- Hpre. reflexivity.
Qed.

(** X8.  For a caller's threshold above 0.005, the default 0.01 included,
    every run tries strictly decreasing thresholds: both the support passes
    and the confidence passes it makes are in strictly decreasing order. *)
Theorem passes_strictly_decreasing
    (apriori : transactions -> float -> result (list itemset_row))
    (association_rules : list itemset_row -> float -> result (list rule))
    (df : transactions) (c : float) :
  (MIN_CONFIDENCE_SECONDARY <? c)%float = true ->
  strictly_decreasing
    (support_passes
       (snd (generate_association_rules apriori association_rules df c []))) = true /\
  strictly_decreasing
    (confidence_passes
       (snd (generate_association_rules apriori association_rules df c []))) = true.
Proof.
  intros Hc.
  destruct (generate_association_rules_passes apriori association_rules df c)
    as (n & m & ->).
  rewrite support_passes_app, confidence_passes_app,
    support_passes_apriori, support_passes_association_rules,
    confidence_passes_apriori, confidence_passes_association_rules, app_nil_r.
  simpl app. split.
  - apply strictly_decreasing_firstn3. reflexivity.
  - apply strictly_decreasing_firstn3. apply confidence_ladder_decreasing, Hc.
Qed.

(** X9.  A frame with rows that the function returns is what one call of
    [association_rules] returned: the call at the last confidence threshold
    tried, on the frequent itemsets that the last support pass returned.
    Results of different passes are never merged. *)
Theorem result_of_last_pass
    (apriori : transactions -> float -> result (list itemset_row))
    (association_rules : list itemset_row -> float -> result (list rule))
    (df : transactions) (c : float) (rules : list rule) (tr : list event) :
  generate_association_rules apriori association_rules df c [] = (Return rules, tr) ->
  rules <> [] ->
  exists frequent_itemsets,
    apriori df (last (support_passes tr) MIN_SUPPORT_PRIMARY) = Return frequent_itemsets /\
    association_rules frequent_itemsets (last (confidence_passes tr) c) = Return rules.
Proof.
  intros Hrun Hne.
  rewrite generate_association_rules_run in Hrun.
  destruct (escalation_run_passes (apriori df) Apriori_call
              MIN_SUPPORT_PRIMARY MIN_SUPPORT_SECONDARY MIN_SUPPORT_MINIMUM [])
    as (supports & Htr & _ & _ & _ & _ & Hres).
  rewrite <- mine_frequent_itemsets_run in Htr, Hres.
  destruct (mine_frequent_itemsets apriori df []) as [[fi|[w|w]] tr1] eqn:Em;
    simpl in Htr, Hres; subst tr1.
  - destruct (escalation_run_passes (association_rules fi) Association_rules_call
                c MIN_CONFIDENCE_SECONDARY MIN_CONFIDENCE_MINIMUM
                (map Apriori_call supports))
      as (confidences & Hc & _ & _ & _ & _ & Hres').
    rewrite <- derive_rules_run in Hc, Hres'.
    destruct (derive_rules association_rules fi c (map Apriori_call supports))
      as [[rs|[w|w]] tr2] eqn:Ed; simpl in Hc, Hres'; subst tr2.
    + injection Hrun as <- <-. exists fi.
      rewrite support_passes_app, confidence_passes_app,
        support_passes_apriori, support_passes_association_rules,
        confidence_passes_apriori, confidence_passes_association_rules, app_nil_r.
      simpl app. split; symmetry; assumption.
    + injection Hrun as <- _. congruence.
    + discriminate Hrun.
  - injection Hrun as <- _. congruence.
  - discriminate Hrun.
Qed.

(** X10.  With a rule generator that finds nothing at a threshold once it
    found nothing at a lower one, a caller's threshold below 0.005 makes the
    retry at 0.005 idle: the confidence ladder ends as if it had gone from
    the caller's threshold straight to 0.001. *)
Theorem tight_retry_is_idle
    (association_rules : list itemset_row -> float -> result (list rule))
    (fi : list itemset_row) (c : float) (tr : list event) :
  (forall a b, (a <=? b)%float = true ->
               association_rules fi a = Return [] ->
               association_rules fi b = Return []) ->
  (c <? MIN_CONFIDENCE_SECONDARY)%float = true ->
  fst (derive_rules association_rules fi c tr) =
  match association_rules fi c with
  | Return [] => association_rules fi MIN_CONFIDENCE_MINIMUM
  | first_pass => first_pass
  end.
Proof.
  intros Hmono Hc. rewrite derive_rules_run. unfold escalation_run.
  destruct (association_rules fi c) as [[|r rs]|e] eqn:E1; try reflexivity.
  rewrite (Hmono c MIN_CONFIDENCE_SECONDARY (FloatChains.ltb_leb _ _ Hc) E1).
  reflexivity.
Qed.

(* ================================================================= *)
(** * Loading and cleaning the transactions *)

Lemma clean_transaction_normalized transaction :
  Forall (fun it => strip it = it /\ lower it = it) (clean_transaction transaction).
Proof.
  induction transaction as [|[item|] transaction IH]; simpl.
  - constructor.
  - constructor; [|exact IH].
    split; [rewrite <- strip_lower; apply strip_idem | apply lower_idem].
  - exact IH.
Qed.

Lemma clean_transaction_fixed t :
  Forall (fun it => strip it = it /\ lower it = it) t ->
  clean_transaction (map Some t) = t.
Proof.
  induction 1 as [|x t [Hs Hl] _ IH]; simpl; [reflexivity|].
  rewrite Hs, Hl, IH. reflexivity.
Qed.

Lemma clean_transactions_filter transactions :
  clean_transactions transactions =
  filter (fun t => negb (empty t)) (map clean_transaction transactions).
Proof.
  induction transactions as [|t ts IH]; simpl; [reflexivity|].
  rewrite IH. destruct (clean_transaction t); reflexivity.
Qed.

Lemma clean_transactions_fixed l :
  Forall (fun t => t <> [] /\
                   Forall (fun it => strip it = it /\ lower it = it) t) l ->
  clean_transactions (map (map Some) l) = l.
Proof.
  induction 1 as [|t ts [Hne Hnorm] _ IH]; [reflexivity|].
  cbn [map clean_transactions]. rewrite (clean_transaction_fixed _ Hnorm), IH.
  destruct t; [congruence | reflexivity].
Qed.

Lemma clean_transactions_normalized transactions :
  Forall (fun t => t <> [] /\
                   Forall (fun it => strip it = it /\ lower it = it) t)
         (clean_transactions transactions).
Proof.
  rewrite clean_transactions_filter, Forall_forall. intros t Ht.
  apply filter_In in Ht. destruct Ht as [Hin Hne].
  apply in_map_iff in Hin. destruct Hin as [t0 [<- _]].
  split; [|apply clean_transaction_normalized].
  destruct (clean_transaction t0); [discriminate Hne | discriminate].
Qed.

(** X11.  Cleaning keeps the transactions in their order, drops NaN entries
    and the transactions left without an entry, and leaves only trimmed,
    case-folded items; cleaning what is already clean changes nothing.  An
    entry of white space only is kept, as the empty item. *)
Theorem clean_transactions_spec (transactions : list (list (option string))) :
  let cleaned := clean_transactions transactions in
  cleaned = filter (fun t => negb (empty t)) (map clean_transaction transactions) /\
  List.length cleaned <= List.length transactions /\
  Forall (fun t => t <> [] /\
                   Forall (fun it => strip it = it /\ lower it = it) t) cleaned /\
  clean_transactions (map (map Some) cleaned) = cleaned /\
  clean_transactions [[None]; [Some "  "%string; None]] = [[EmptyString]].
Proof.
  intros cleaned.
  assert (Hf : cleaned = filter (fun t => negb (empty t))
                           (map clean_transaction transactions))
    by apply clean_transactions_filter.
  assert (Hall : Forall (fun t => t <> [] /\
                   Forall (fun it => strip it = it /\ lower it = it) t) cleaned).
  { rewrite Hf, Forall_forall. intros t Ht. apply filter_In in Ht.
    destruct Ht as [Hin Hne]. apply in_map_iff in Hin. destruct Hin as [t0 [<- _]].
    split; [|apply clean_transaction_normalized].
    destruct (clean_transaction t0); [discriminate Hne | discriminate]. }
  split; [exact Hf|]. split.
  { rewrite Hf. etransitivity; [apply filter_length_le|]. rewrite length_map. lia. }
  split; [exact Hall|]. split; [|reflexivity].
  apply clean_transactions_fixed, Hall.
Qed.

(** On a column of [str] and NaN entries the two cleanings agree; with a
    number among the entries the cleaning raises. *)
Lemma clean_entries_outcome transaction :
  (In Number transaction /\
   clean_entries transaction = Raise (Exception "AttributeError")) \/
  (~ In Number transaction /\
   clean_entries transaction =
   Return (clean_transaction (map entry_text transaction))).
Proof.
  induction transaction as [|[s| |] transaction IH]; simpl.
  - right. split; [tauto | reflexivity].
  - destruct IH as [[Hin ->] | [Hno ->]].
    + left. split; [right; exact Hin | reflexivity].
    + right. split; [|reflexivity]. intros [H | H]; [discriminate H | exact (Hno H)].
  - destruct IH as [[Hin ->] | [Hno ->]].
    + left. split; [right; exact Hin | reflexivity].
    + right. split; [|reflexivity]. intros [H | H]; [discriminate H | exact (Hno H)].
  - left. split; [left; reflexivity | reflexivity].
Qed.

Lemma clean_baskets_outcome transactions :
  (holds_number transactions /\
   clean_baskets transactions = Raise (Exception "AttributeError")) \/
  (~ holds_number transactions /\
   clean_baskets transactions =
   Return (clean_transactions (map (map entry_text) transactions))).
Proof.
  unfold holds_number.
  induction transactions as [|t ts IH]; simpl.
  - right. split; [intros (t & [] & _) | reflexivity].
  - destruct (clean_entries_outcome t) as [[Hin ->] | [Hno ->]].
    + left. split; [|reflexivity]. exists t. split; [left; reflexivity | exact Hin].
    + destruct IH as [[(t' & Ht' & Hin) ->] | [Hnone ->]].
      * left. split; [|reflexivity]. exists t'. split; [right; exact Ht' | exact Hin].
      * right. split; [|reflexivity].
        intros (t' & [<- | Ht'] & Hin); [exact (Hno Hin)|].
        apply Hnone. exists t'. split; assumption.
Qed.

(** X12.  [load_groceries_data] never lets an [Exception] out.  It returns
    [None] exactly when reading raised one, or some entry of the item column
    is neither a [str] nor NaN (the cleaning then raises AttributeError), or
    encoding raised one; and a frame it returns is what the encoder made of
    the cleaned transactions, each of which holds at least one item, all
    items trimmed and case-folded. *)
Theorem load_groceries_data_outcome
    (read_baskets : result (list (list entry)))
    (encode : list (list item) -> result transactions) (tr : list event) :
  (forall what, fst (load_groceries_data read_baskets encode tr) <> Raise (Exception what)) /\
  (forall df,
      fst (load_groceries_data read_baskets encode tr) = Return (Some df) ->
      exists transactions cleaned,
        read_baskets = Return transactions /\
        ~ holds_number transactions /\
        clean_baskets transactions = Return cleaned /\
        cleaned = clean_transactions (map (map entry_text) transactions) /\
        encode cleaned = Return df /\
        Forall (fun t => t <> [] /\
                         Forall (fun it => strip it = it /\ lower it = it) t) cleaned) /\
  (fst (load_groceries_data read_baskets encode tr) = Return None <->
   (exists what, read_baskets = Raise (Exception what)) \/
   (exists transactions,
       read_baskets = Return transactions /\ holds_number transactions) \/
   (exists transactions cleaned what,
       read_baskets = Return transactions /\
       clean_baskets transactions = Return cleaned /\
       encode cleaned = Raise (Exception what))).
Proof.
  unfold load_groceries_data, try_except_Exception, bind, lift, ret.
  destruct read_baskets as [ts|[w|w]]; cbn [fst].
  - destruct (clean_baskets_outcome ts) as [[Hnum Ec] | [Hnone Ec]]; rewrite Ec; cbn [fst].
    + split; [discriminate|]. split; [discriminate|].
      split; [|reflexivity]. intros _. right. left. exists ts. split; [reflexivity | exact Hnum].
    + set (cleaned := clean_transactions (map (map entry_text) ts)) in *.
      destruct (encode cleaned) as [df|[w|w]] eqn:E; cbn [fst].
      * split; [discriminate|]. split.
        -- intros df' H. injection H as <-. exists ts, cleaned.
           split; [reflexivity|]. split; [exact Hnone|]. split; [exact Ec|].
           split; [reflexivity|]. split; [exact E|].
           apply clean_transactions_normalized.
        -- split; [discriminate|].
           intros [[w H] | [(ts' & Hts & Hnum) | (ts' & cl & w & Hts & Hcl & H)]].
           ++ discriminate H.
           ++ injection Hts as <-. contradiction.
           ++ injection Hts as <-. rewrite Ec in Hcl. injection Hcl as <-. congruence.
      * split; [discriminate|]. split; [discriminate|].
        split; [|reflexivity]. intros _. right. right. exists ts, cleaned, w.
        split; [reflexivity|]. split; [exact Ec | exact E].
      * split; [discriminate|]. split; [discriminate|].
        split; [discriminate|].
        intros [[w' H] | [(ts' & Hts & Hnum) | (ts' & cl & w' & Hts & Hcl & H)]].
        ++ discriminate H.
        ++ injection Hts as <-. contradiction.
        ++ injection Hts as <-. rewrite Ec in Hcl. injection Hcl as <-. congruence.
  - split; [discriminate|]. split; [discriminate|].
    split; [|reflexivity]. intros _. left. exists w. reflexivity.
  - split; [discriminate|]. split; [discriminate|].
    split; [discriminate|].
    intros [[w' H] | [(ts & H & _) | (ts & cl & w' & H & _)]]; discriminate H.
Qed.

(** A numeric item column: nothing is read wrongly and the encoder is not
    reached, yet no frame is returned. *)
Example numeric_column_gives_none :
  load_groceries_data (Return numeric_baskets) letters_encode [] = (Return None, []).
Proof. reflexivity. Qed.

(* ================================================================= *)
(** * The interactive loop *)

Lemma best_consequent_only_errors frame what :
  fst (best_consequent frame []) <> Raise (BaseException what).
Proof.
  unfold best_consequent, bind, lift, ret, loc_idxmax, first_element.
  destruct frame as [|r0 rest]; [discriminate|].
  destruct (forallb _ (r0 :: rest)); [discriminate|].
  destruct (consequents (argmax_from r0 rest)); discriminate.
Qed.

Lemma find_best_recommendation_only_errors input_items rules tr what :
  fst (find_best_recommendation input_items rules tr) <> Raise (BaseException what).
Proof.
  rewrite find_best_recommendation_value. unfold answer_of_frames.
  destruct (negb (empty (rows_matching input_items rules)));
    [apply best_consequent_only_errors|].
  destruct input_items; [discriminate|].
  destruct (negb (empty (rows_matching (firstn 1 (i :: input_items)) rules)));
    [apply best_consequent_only_errors | discriminate].
Qed.

Lemma find_best_recommendation_returns rules input_items tr :
  rule_set_wf rules ->
  exists answer, fst (find_best_recommendation input_items rules tr) = Return answer.
Proof.
  intros Hwf. rewrite find_best_recommendation_value. unfold answer_of_frames.
  assert (Hframe : forall key, rows_matching key rules <> [] ->
            exists c, fst (best_consequent (rows_matching key rules) []) = Return (Some c)).
  { intros key Hne.
    destruct (best_consequent_returns _ Hne (select_wf rules key Hwf))
      as (_ & c & _ & _ & _ & Hrun).
    exists c. unfold rows_matching. rewrite Hrun. reflexivity. }
  destruct (rows_matching input_items rules) as [|m ms] eqn:Em; cbn [empty negb].
  - destruct input_items as [|first_item rest]; [exists None; reflexivity|].
    destruct (rows_matching (firstn 1 (first_item :: rest)) rules) as [|m1 ms1] eqn:E1;
      cbn [empty negb]; [exists None; reflexivity|].
    rewrite <- E1. destruct (Hframe (firstn 1 (first_item :: rest))) as [c Hc];
      [rewrite E1; discriminate|]. exists (Some c). exact Hc.
  - rewrite <- Em. destruct (Hframe input_items) as [c Hc];
      [rewrite Em; discriminate|]. exists (Some c). exact Hc.
Qed.

Lemma filter_same_length {A : Type} (f : A -> bool) (l : list A) :
  List.length (filter f l) = List.length l -> filter f l = l.
Proof.
  induction l as [|a l IH]; simpl; [reflexivity|].
  destruct (f a); simpl; intros H.
  - f_equal. apply IH. lia.
  - pose proof (filter_length_le f l). lia.
Qed.

(** The iteration body in terms of the query it hands to the resolver: the
    parsed items that are columns of the data set. *)
Lemma answer_query_unfold set_order df rules user_input :
  answer_query set_order df rules user_input =
  let cleaned := cleaned_items user_input in
  let warning :=
    if 3 <? List.length cleaned then [Only_first_three (firstn 3 cleaned)] else [] in
  let items := parse_input_items user_input in
  let query := filter (fun item => mem item (columns df)) items in
  if empty items then (warning ++ [Please_enter_item], Return tt)
  else if empty query
  then (warning ++ [None_found;
                    Available_items_include
                      (sorted (firstn 10 (set_order (columns df))))],
        Return tt)
  else
    let note :=
      if negb (List.length query =? List.length items)
      then [Items_not_found (filter (fun item => negb (mem item (columns df))) items)]
      else [] in
    match fst (find_best_recommendation query rules []) with
    | Raise e => (warning ++ note, Raise e)
    | Return recommendation =>
        (warning ++ note ++
         [match recommendation with
          | Some r => if truthy r then Maybe_purchase r else No_recommendation
          | None => No_recommendation
          end; Blank_line], Return tt)
    end.
Proof.
  unfold answer_query. cbv zeta.
  destruct (empty (parse_input_items user_input)); [reflexivity|].
  destruct (empty (filter _ (parse_input_items user_input))); [reflexivity|].
  destruct (List.length (filter (fun item => mem item (columns df))
                           (parse_input_items user_input))
            =? List.length (parse_input_items user_input)) eqn:E; cbn [negb].
  - apply Nat.eqb_eq in E. rewrite (filter_same_length _ _ E). reflexivity.
  - reflexivity.
Qed.

Lemma known_items_bound df user_input :
  let query := filter (fun item => mem item (columns df)) (parse_input_items user_input) in
  List.length query <= 3 /\
  forall it, In it query -> In it (columns df) /\ In it (parse_input_items user_input).
Proof.
  cbv zeta. split.
  - etransitivity; [apply filter_length_le|].
    rewrite parse_input_items_firstn. apply firstn_le_length.
  - intros it Hit. apply filter_In in Hit. destruct Hit as [Hin Hmem].
    split; [apply mem_In, Hmem | exact Hin].
Qed.

Lemma purchase_printed_iff set_order df rules user_input x :
  In (Maybe_purchase x) (fst (answer_query set_order df rules user_input)) <->
  x <> EmptyString /\
  filter (fun item => mem item (columns df)) (parse_input_items user_input) <> [] /\
  fst (find_best_recommendation
         (filter (fun item => mem item (columns df)) (parse_input_items user_input))
         rules []) = Return (Some x).
Proof.
  rewrite answer_query_unfold. cbv zeta.
  set (warning := if 3 <? _ then _ else _).
  set (items := parse_input_items user_input).
  set (query := filter _ items).
  set (note := if negb _ then _ else _).
  assert (Hw : ~ In (Maybe_purchase x) warning).
  { subst warning. destruct (3 <? _); simpl; intuition discriminate. }
  assert (Hn : ~ In (Maybe_purchase x) note).
  { subst note. destruct (negb _); simpl; intuition discriminate. }
  clearbody warning note.
  destruct (empty items) eqn:Ei.
  { assert (Hq : query = []) by (subst query; destruct items; [reflexivity | discriminate Ei]).
    simpl. rewrite in_app_iff. simpl. split.
    - intros [H | [H | []]]; [tauto | discriminate H].
    - intros (_ & H & _). congruence. }
  destruct (empty query) eqn:Eq.
  { assert (Hq : query = []) by (destruct query; [reflexivity | discriminate Eq]).
    simpl. rewrite in_app_iff. simpl. split.
    - intros [H | [H | [H | []]]]; [tauto | discriminate H | discriminate H].
    - intros (_ & H & _). congruence. }
  assert (Hq : query <> []) by (destruct query; [discriminate Eq | discriminate]).
  destruct (fst (find_best_recommendation query rules [])) as [[r|]|e] eqn:Er; simpl.
  - rewrite !in_app_iff. simpl. destruct (truthy r) eqn:Et; split.
    + intros [H | [H | [H | [H | []]]]]; try tauto; try discriminate H.
      injection H as ->. split; [apply truthy_true_iff, Et|]. split; [exact Hq | reflexivity].
    + intros (_ & _ & H). injection H as ->. right. right. left. reflexivity.
    + intros [H | [H | [H | [H | []]]]]; try tauto; discriminate H.
    + intros (Hx & _ & H). injection H as ->. apply truthy_true_iff in Hx. congruence.
  - rewrite !in_app_iff. simpl. split.
    + intros [H | [H | [H | [H | []]]]]; try tauto; discriminate H.
    + intros (_ & _ & H). discriminate H.
  - rewrite in_app_iff. split; [tauto|]. intros (_ & _ & H). discriminate H.
Qed.

(** X13.  The loop hands the resolver only the parsed items that are
    columns of the data set, at most three of them and at least one; and it
    prints a recommendation exactly when the resolver returns a non-empty
    item for that query. *)
Theorem recommendation_printed_iff
    (set_order : list item -> list item) (df : transactions) (rules : list rule)
    (user_input : string) (x : item) :
  let query :=
    filter (fun item => mem item (columns df)) (parse_input_items user_input) in
  List.length query <= 3 /\
  (forall it, In it query -> In it (columns df) /\ In it (parse_input_items user_input)) /\
  (In (Maybe_purchase x) (fst (answer_query set_order df rules user_input)) <->
   x <> EmptyString /\ query <> [] /\
   fst (find_best_recommendation query rules []) = Return (Some x)).
Proof.
  cbv zeta. split; [apply known_items_bound|]. split; [apply known_items_bound|].
  apply purchase_printed_iff.
Qed.

(** X14.  Items after the third are not considered: when none of the first
    three items of the line is a column of the data set, the user is told so
    and the resolver is not asked, whatever else the line holds. *)
Theorem unknown_first_three
    (set_order : list item -> list item) (df : transactions) (rules : list rule)
    (user_input : string) :
  cleaned_items user_input <> [] ->
  (forall it, In it (firstn 3 (cleaned_items user_input)) -> ~ In it (columns df)) ->
  answer_query set_order df rules user_input =
  ((if 3 <? List.length (cleaned_items user_input)
    then [Only_first_three (firstn 3 (cleaned_items user_input))] else []) ++
   [None_found;
    Available_items_include (sorted (firstn 10 (set_order (columns df))))],
   Return tt).
Proof.
  intros Hne Hunknown. rewrite answer_query_unfold. cbv zeta.
  rewrite parse_input_items_firstn.
  assert (Hq : filter (fun item => mem item (columns df))
                 (firstn 3 (cleaned_items user_input)) = []).
  { apply filter_nil_iff. intros it Hit.
    destruct (mem it (columns df)) eqn:Em; [|reflexivity].
    apply mem_In in Em. exfalso. exact (Hunknown it Hit Em). }
  assert (Hk : empty (firstn 3 (cleaned_items user_input)) = false).
  { destruct (cleaned_items user_input); [congruence | reflexivity]. }
  rewrite Hq, Hk. reflexivity.
Qed.

Lemma answer_query_only_errors set_order df rules user_input what :
  snd (answer_query set_order df rules user_input) <> Raise (BaseException what).
Proof.
  rewrite answer_query_unfold. cbv zeta.
  destruct (empty (parse_input_items user_input)); [discriminate|].
  destruct (empty (filter _ (parse_input_items user_input))); [discriminate|].
  pose proof (find_best_recommendation_only_errors
                (filter (fun item => mem item (columns df))
                   (parse_input_items user_input)) rules [] what) as Hno.
  destruct (fst (find_best_recommendation _ rules [])) as [rec|e]; cbn [snd];
    [discriminate|].
  intros H. apply Hno. injection H as ->. reflexivity.
Qed.

Lemma serve_control set_order df rules ev :
  (snd (serve set_order df rules ev) = Break <-> stop_request ev) /\
  (snd (serve set_order df rules ev) = Break \/
   snd (serve set_order df rules ev) = Continue).
Proof.
  unfold stop_request, serve. destruct ev as [text| |].
  - change (existsb (String.eqb (lower (strip text))) quit_words)
      with (mem (lower (strip text)) quit_words).
    destruct (mem (lower (strip text)) quit_words) eqn:Eq.
    + cbn [snd]. split; [|left; reflexivity]. split; [|reflexivity].
      intros _. right. exists text. split; [reflexivity | apply mem_In, Eq].
    + pose proof (answer_query_only_errors set_order df rules (strip text)) as Hno.
      destruct (answer_query set_order df rules (strip text)) as [out [u|[w|w]]];
        cbn [snd] in *; try (exfalso; exact (Hno w eq_refl));
        (split; [|right; reflexivity]); (split; [discriminate|]);
        intros [H | (text' & H & Hin)]; try discriminate H;
        injection H as <-; apply mem_In in Hin; congruence.
  - cbn [snd]. split; [|right; reflexivity]. split; [discriminate|].
    intros [H | (text & H & _)]; discriminate H.
  - cbn [snd]. split; [|left; reflexivity]. split; [|reflexivity].
    intros _. left. reflexivity.
Qed.

(** X15.  An iteration ends the loop exactly on an interrupt or on a line
    that, trimmed and case-folded, is quit, exit or q; every other input,
    the end of input and a resolver failure included, continues the loop,
    and nothing propagates out of it. *)
Theorem loop_ends_only_on_request
    (set_order : list item -> list item) (df : transactions) (rules : list rule)
    (ev : stdin_event) :
  (snd (serve set_order df rules ev) = Break <-> stop_request ev) /\
  (snd (serve set_order df rules ev) = Continue <-> ~ stop_request ev) /\
  (forall e, snd (serve set_order df rules ev) <> Propagate e).
Proof.
  destruct (serve_control set_order df rules ev) as [Hb Hor].
  split; [exact Hb|]. split.
  - split.
    + intros Hc Hs. apply Hb in Hs. congruence.
    + intros Hn. destruct Hor as [H | H]; [|exact H]. apply Hb in H. contradiction.
  - intros e He. destruct Hor as [H | H]; congruence.
Qed.

(** X16.  The loop ends at the first stop request and not before: with more
    iterations allowed than inputs precede the request, it finishes having
    printed what those iterations and the last one print; with fewer, it is
    still running. *)
Theorem loop_finishes_at_first_request
    (set_order : list item -> list item) (df : transactions) (rules : list rule)
    (stdin : nat -> stdin_event) (n : nat) :
  forall k fuel,
    (forall j, j < n -> ~ stop_request (stdin (k + j))) ->
    stop_request (stdin (k + n)) ->
    serve_loop set_order fuel df rules stdin k =
    if n <? fuel
    then (iterations_output set_order df rules stdin (S n) k, Finished)
    else (iterations_output set_order df rules stdin fuel k, Out_of_fuel).
Proof.
  induction n as [|n IH]; intros k fuel Hbefore Hstop.
  - rewrite Nat.add_0_r in Hstop.
    destruct fuel as [|fuel]; [reflexivity|].
    cbn [Nat.ltb Nat.leb serve_loop iterations_output].
    apply (proj1 (serve_control set_order df rules (stdin k))) in Hstop.
    destruct (serve set_order df rules (stdin k)) as [out how].
    cbn [snd] in Hstop. subst how. cbn [fst]. rewrite app_nil_r. reflexivity.
  - destruct fuel as [|fuel]; [reflexivity|].
    assert (Hk : ~ stop_request (stdin k)).
    { specialize (Hbefore 0 (Nat.lt_0_succ n)). rewrite Nat.add_0_r in Hbefore.
      exact Hbefore. }
    destruct (serve_control set_order df rules (stdin k)) as [Hb Hor].
    assert (Hc : snd (serve set_order df rules (stdin k)) = Continue).
    { destruct Hor as [H | H]; [apply Hb in H; contradiction | exact H]. }
    cbn [serve_loop]. change (S n <? S fuel) with (n <? fuel).
    specialize (IH (S k) fuel).
    rewrite IH.
    + destruct (serve set_order df rules (stdin k)) as [out how] eqn:Es.
      cbn [snd] in Hc. subst how.
      destruct (n <? fuel); cbn [iterations_output]; rewrite Es; reflexivity.
    + intros j Hj. replace (S k + j) with (k + S j) by lia. apply Hbefore. lia.
    + replace (S k + n) with (k + S n) by lia. exact Hstop.
Qed.

(** X17.  At the end of the input the loop does not end: [input] raises
    EOFError, the handler prints the error and the loop asks again, for as
    many iterations as it is given. *)
Theorem end_of_input_never_ends
    (set_order : list item -> list item) (df : transactions) (rules : list rule)
    (stdin : nat -> stdin_event) :
  forall fuel k,
    (forall j, stdin (k + j) = EOF) ->
    serve_loop set_order fuel df rules stdin k =
    (List.concat (repeat eof_messages fuel), Out_of_fuel).
Proof.
  induction fuel as [|fuel IH]; intros k Heof; [reflexivity|].
  cbn [serve_loop]. pose proof (Heof 0) as H0. rewrite Nat.add_0_r in H0.
  rewrite H0. cbn [serve]. rewrite (IH (S k)).
  - reflexivity.
  - intros j. replace (S k + j) with (k + S j) by lia. apply Heof.
Qed.

Lemma answer_query_no_error set_order df rules user_input what :
  ~ In (Error_occurred what) (fst (answer_query set_order df rules user_input)).
Proof.
  rewrite answer_query_unfold. cbv zeta.
  set (warning := if 3 <? _ then _ else _).
  set (note := if negb _ then _ else _).
  assert (Hw : ~ In (Error_occurred what) warning).
  { subst warning. destruct (3 <? _); simpl; intuition discriminate. }
  assert (Hn : ~ In (Error_occurred what) note).
  { subst note. destruct (negb _); simpl; intuition discriminate. }
  clearbody warning note.
  destruct (empty (parse_input_items user_input)).
  { cbn [fst]. rewrite in_app_iff. simpl. intuition discriminate. }
  destruct (empty (filter _ (parse_input_items user_input))).
  { cbn [fst]. rewrite in_app_iff. simpl. intuition discriminate. }
  destruct (fst (find_best_recommendation _ rules [])) as [[r|]|e]; cbn [fst];
    rewrite ?in_app_iff; simpl; try destruct (truthy r); intuition discriminate.
Qed.

(** X18.  With well-formed rules no line typed by the user makes the loop
    print an error: the resolver returns for every query it is handed. *)
Theorem well_formed_rules_no_error
    (set_order : list item -> list item) (df : transactions) (rules : list rule)
    (text : string) (what : string) :
  rule_set_wf rules ->
  ~ In (Error_occurred what) (fst (serve set_order df rules (Line text))).
Proof.
  intros Hwf. unfold serve.
  destruct (existsb _ quit_words); [simpl; intuition discriminate|].
  pose proof (answer_query_no_error set_order df rules (strip text) what) as Hout.
  assert (Hret : snd (answer_query set_order df rules (strip text)) = Return tt).
  { rewrite answer_query_unfold. cbv zeta.
    destruct (empty (parse_input_items (strip text))); [reflexivity|].
    destruct (empty (filter _ (parse_input_items (strip text)))); [reflexivity|].
    destruct (find_best_recommendation_returns rules
                (filter (fun item => mem item (columns df))
                   (parse_input_items (strip text))) [] Hwf) as [answer ->].
    reflexivity. }
  destruct (answer_query set_order df rules (strip text)) as [out r].
  cbn [fst snd] in *. subst r. cbn [fst]. simpl. intuition discriminate.
Qed.

Lemma serve_purchase_origin set_order df rules ev x :
  In (Maybe_purchase x) (fst (serve set_order df rules ev)) ->
  x <> EmptyString /\
  exists r,
    In r rules /\ hd_error (consequents r) = Some x /\
    forall a, In a (antecedents r) -> In a (columns df).
Proof.
  unfold serve. destruct ev as [text| |];
    [|simpl; intuition discriminate|simpl; intuition discriminate].
  destruct (existsb _ quit_words); [simpl; intuition discriminate|].
  intros Hin.
  assert (Hout : In (Maybe_purchase x)
                   (fst (answer_query set_order df rules (strip text)))).
  { destruct (answer_query set_order df rules (strip text)) as [out [u|[w|w]]];
      cbn [fst] in *; simpl in Hin.
    - destruct Hin as [H | H]; [discriminate H | exact H].
    - destruct Hin as [H | H]; [discriminate H|].
      apply in_app_iff in H. destruct H as [H | H]; [exact H|].
      simpl in H. intuition discriminate.
    - destruct Hin as [H | H]; [discriminate H | exact H]. }
  apply purchase_printed_iff in Hout. destruct Hout as (Hx & Hq & Hres).
  split; [exact Hx|].
  apply find_best_recommendation_origin in Hres.
  destruct Hres as (r & Hr & Hkey & Hc).
  exists r. split; [exact Hr|]. split; [exact Hc|].
  intros a Ha.
  assert (Hquery : In a (filter (fun item => mem item (columns df))
                           (parse_input_items (strip text)))).
  { destruct Hkey as [Hm | (_ & Hm & _)].
    - apply Hm, Ha.
    - apply Hm in Ha. apply In_firstn in Ha. exact Ha. }
  apply filter_In in Hquery. apply mem_In, Hquery.
Qed.

Lemma serve_loop_purchase_origin set_order df rules stdin x :
  forall fuel k,
    In (Maybe_purchase x) (fst (serve_loop set_order fuel df rules stdin k)) ->
    x <> EmptyString /\
    exists r,
      In r rules /\ hd_error (consequents r) = Some x /\
      forall a, In a (antecedents r) -> In a (columns df).
Proof.
  induction fuel as [|fuel IH]; intros k; [intros []|].
  cbn [serve_loop].
  pose proof (serve_purchase_origin set_order df rules (stdin k) x) as Hs.
  destruct (serve set_order df rules (stdin k)) as [out [| |e]]; cbn [fst] in *.
  - specialize (IH (S k)).
    destruct (serve_loop set_order fuel df rules stdin (S k)) as [out' how].
    cbn [fst] in *. intros H. apply in_app_iff in H. destruct H; auto.
  - exact Hs.
  - exact Hs.
Qed.

(** X19.  Whatever the libraries and the user do, an item that [main]
    recommends is not the empty string and is the first element of the
    consequent of a rule generated in this run, from a data set that loaded
    and a rule frame with rows, and every item of that rule's antecedent is
    a column of the data set. *)
Theorem main_recommends_generated_consequents
    (set_order : list item -> list item)
    (read_baskets : result (list (list entry)))
    (encode : list (list item) -> result transactions)
    (apriori : transactions -> float -> result (list itemset_row))
    (association_rules : list itemset_row -> float -> result (list rule))
    (stdin : nat -> stdin_event) (fuel : nat) (x : item) :
  In (Maybe_purchase x)
     (fst (main set_order read_baskets encode apriori association_rules stdin fuel)) ->
  x <> EmptyString /\
  exists df rules r,
    fst (load_groceries_data read_baskets encode []) = Return (Some df) /\
    fst (generate_association_rules apriori association_rules df
           MIN_CONFIDENCE_PRIMARY []) = Return rules /\
    rules <> [] /\
    In r rules /\ hd_error (consequents r) = Some x /\
    forall a, In a (antecedents r) -> In a (columns df).
Proof.
  unfold main.
  destruct (fst (load_groceries_data read_baskets encode [])) as [[df|]|e];
    [|simpl; intuition discriminate|intros []].
  destruct (fst (generate_association_rules apriori association_rules df
                   MIN_CONFIDENCE_PRIMARY [])) as [rules|e] eqn:Eg; [|intros []].
  destruct (empty rules) eqn:Ee; [simpl; intuition discriminate|].
  intros H. apply serve_loop_purchase_origin in H.
  destruct H as (Hx & r & Hr & Hc & Ha).
  split; [exact Hx|]. exists df, rules, r.
  split; [reflexivity|]. split; [exact Eg|].
  split; [apply empty_false_iff, Ee|]. split; [exact Hr|]. split; assumption.
Qed.

(** X20.  The note about unknown items is printed exactly when some but
    not all of the parsed items are missing from the data set, and it lists
    those missing items, in the order typed. *)
Theorem unknown_items_reported
    (set_order : list item -> list item) (df : transactions) (rules : list rule)
    (user_input : string) (l : list item) :
  let items := parse_input_items user_input in
  let known := filter (fun item => mem item (columns df)) items in
  let unknown := filter (fun item => negb (mem item (columns df))) items in
  List.length known + List.length unknown = List.length items /\
  (In (Items_not_found l) (fst (answer_query set_order df rules user_input)) <->
   l = unknown /\ unknown <> [] /\ known <> []).
Proof.
  cbv zeta.
  pose proof (filter_length (fun item => mem item (columns df))
                (parse_input_items user_input)) as Hlen.
  split; [exact Hlen|].
  rewrite answer_query_unfold. cbv zeta.
  set (warning := if 3 <? _ then _ else _).
  set (items := parse_input_items user_input) in *.
  set (known := filter (fun item => mem item (columns df)) items) in *.
  set (unknown := filter (fun item => negb (mem item (columns df))) items) in *.
  assert (Hw : ~ In (Items_not_found l) warning).
  { subst warning. destruct (3 <? _); simpl; intuition discriminate. }
  clearbody warning.
  destruct (empty items) eqn:Ei.
  { assert (Hk : known = []) by (subst known; destruct items; [reflexivity | discriminate Ei]).
    cbn [fst]. rewrite in_app_iff. simpl. split; [intuition discriminate|].
    intros (_ & _ & H). congruence. }
  destruct (empty known) eqn:Ek.
  { assert (Hk : known = []) by (destruct known; [reflexivity | discriminate Ek]).
    cbn [fst]. rewrite in_app_iff. simpl. split; [intuition discriminate|].
    intros (_ & _ & H). congruence. }
  assert (Hk : known <> []) by (destruct known; [discriminate Ek | discriminate]).
  assert (Hnote : forall tail,
            (forall m, In m tail -> m <> Items_not_found l) ->
            (In (Items_not_found l)
               (warning ++
                (if negb (List.length known =? List.length items)
                 then [Items_not_found unknown] else []) ++ tail) <->
             l = unknown /\ unknown <> [] /\ known <> [])).
  { intros tail Htail. rewrite !in_app_iff.
    destruct (List.length known =? List.length items) eqn:E; cbn [negb]; simpl.
    - apply Nat.eqb_eq in E.
      assert (Hu : unknown = []) by (destruct unknown; [reflexivity | simpl in Hlen; lia]).
      split.
      + intros [H | [[] | H]]; [tauto | exfalso; exact (Htail _ H eq_refl)].
      + intros (_ & H & _). congruence.
    - apply Nat.eqb_neq in E.
      assert (Hu : unknown <> []) by (intros Hu; rewrite Hu in Hlen; simpl in Hlen; lia).
      split.
      + intros [H | [[H | []] | H]]; [tauto | | exfalso; exact (Htail _ H eq_refl)].
        injection H as <-. auto.
      + intros (-> & _ & _). right. left. left. reflexivity. }
  destruct (fst (find_best_recommendation known rules [])) as [rec|e]; cbn [fst].
  - apply Hnote. intros m Hm. simpl in Hm.
    destruct Hm as [<- | [<- | []]]; [destruct rec as [r|]; [destruct (truthy r)|]|];
      discriminate.
  - specialize (Hnote [] (fun m (H : In m []) => match H with end)).
    rewrite app_nil_r in Hnote. exact Hnote.
Qed.

(** X21.  Unless a rule matches the whole query, only its first item
    counts: two queries that begin with the same item and that no rule
    matches exactly are answered alike. *)
Theorem fallback_uses_first_item_only (rules : list rule) (first_item : item)
    (rest rest' : list item) (tr tr' : list event) :
  (forall r, In r rules -> ~ matches (first_item :: rest) r) ->
  (forall r, In r rules -> ~ matches (first_item :: rest') r) ->
  fst (find_best_recommendation (first_item :: rest) rules tr) =
  fst (find_best_recommendation (first_item :: rest') rules tr').
Proof.
  intros H1 H2. rewrite !find_best_recommendation_value.
  rewrite (rows_matching_none _ _ H1), (rows_matching_none _ _ H2).
  reflexivity.
Qed.

(* ================================================================= *)
(** * Worked instances of the further facts *)

(** A session of three lines: a query, a query with an unknown item, and
    the request to quit. *)
Example sample_session_transcript :
  main insertion_order (Return sample_baskets) letters_encode
    (apriori_of sample_itemsets) (association_rules_of sample_rules)
    sample_session 10 =
  ([Enter_items; Maybe_purchase "b"%string; Blank_line;
    Enter_items; Items_not_found ["zzz"%string]; No_recommendation; Blank_line;
    Enter_items; Thank_you],
   Finished).
Proof. reflexivity. Qed.

(** Among rows of equal greatest confidence the first one answers. *)
Example tie_goes_to_first_row :
  fst (find_best_recommendation ["a"]%string tied_rules []) = Return (Some "b"%string).
Proof. reflexivity. Qed.

Lemma answer_origin_witness :
  exists r,
    In r sample_rules /\
    (matches ["a"]%string r \/
     (["a"]%string <> [] /\ matches (firstn 1 ["a"]%string) r /\
      forall r', In r' sample_rules -> ~ matches ["a"]%string r')) /\
    hd_error (consequents r) = Some "b"%string.
Proof.
  apply (answer_origin sample_rules ["a"]%string [] "b"%string). reflexivity.
Defined.

Lemma tie_break_first_row_witness :
  exists before best after consequent others,
    tied_rules = before ++ best :: after /\
    matches ["a"]%string best /\
    (forall r, In r before -> matches ["a"]%string r ->
       (confidence r <? confidence best)%float = true) /\
    (forall r, In r after -> matches ["a"]%string r ->
       (confidence r <=? confidence best)%float = true) /\
    consequents best = consequent :: others /\
    forall tr,
      fst (find_best_recommendation ["a"]%string tied_rules tr) =
      Return (Some consequent).
Proof.
  apply (tie_break_first_row tied_rules ["a"]%string ["a"]%string).
  - rules_wf.
  - apply some_rule_matches_check. reflexivity.
  - left. reflexivity.
Defined.

Lemma exact_answer_ignores_order_witness :
  fst (find_best_recommendation ["b"; "a"; "b"]%string pair_rules []) =
  fst (find_best_recommendation ["a"; "b"]%string pair_rules []).
Proof.
  apply (exact_answer_ignores_order pair_rules
           ["b"; "a"; "b"]%string ["a"; "b"]%string [] []).
  - intros x. simpl. tauto.
  - apply some_rule_matches_check. reflexivity.
Defined.

Lemma exact_answer_is_new_witness :
  exists c,
    (forall tr, fst (find_best_recommendation ["a"; "b"]%string pair_rules tr) =
                Return (Some c)) /\
    ~ In c ["a"; "b"]%string.
Proof.
  apply (exact_answer_is_new pair_rules ["a"; "b"]%string).
  - rules_wf.
  - intros r Hr x Hx Hc. simpl in Hr.
    destruct Hr as [<- | [<- | []]]; simpl in Hx, Hc;
      repeat (destruct Hx as [<- | Hx]; [intuition discriminate|]); exact Hx.
  - apply some_rule_matches_check. reflexivity.
Defined.

Lemma unrelated_rules_do_not_matter_witness :
  fst (find_best_recommendation ["a"]%string ([faint_rule] ++ sample_rules ++ [rule_ab_c]) []) =
  fst (find_best_recommendation ["a"]%string sample_rules []).
Proof.
  apply (unrelated_rules_do_not_matter sample_rules [faint_rule] [rule_ab_c]
           ["a"]%string [] []).
  intros r Hr. split; revert r Hr; apply no_rule_matches_check; reflexivity.
Defined.

Lemma passes_strictly_decreasing_witness :
  strictly_decreasing
    (support_passes
       (snd (generate_association_rules
               (apriori_of sample_itemsets) (association_rules_of [faint_rule])
               sample_df MIN_CONFIDENCE_PRIMARY []))) = true /\
  strictly_decreasing
    (confidence_passes
       (snd (generate_association_rules
               (apriori_of sample_itemsets) (association_rules_of [faint_rule])
               sample_df MIN_CONFIDENCE_PRIMARY []))) = true.
Proof.
  apply (passes_strictly_decreasing
           (apriori_of sample_itemsets) (association_rules_of [faint_rule])
           sample_df MIN_CONFIDENCE_PRIMARY).
  reflexivity.
Defined.

Lemma result_of_last_pass_witness :
  exists frequent_itemsets,
    apriori_of sample_itemsets sample_df
      (last (support_passes
               [Apriori_call MIN_SUPPORT_PRIMARY;
                Association_rules_call MIN_CONFIDENCE_PRIMARY;
                Association_rules_call MIN_CONFIDENCE_SECONDARY;
                Association_rules_call MIN_CONFIDENCE_MINIMUM])
         MIN_SUPPORT_PRIMARY) = Return frequent_itemsets /\
    association_rules_of [faint_rule] frequent_itemsets
      (last (confidence_passes
               [Apriori_call MIN_SUPPORT_PRIMARY;
                Association_rules_call MIN_CONFIDENCE_PRIMARY;
                Association_rules_call MIN_CONFIDENCE_SECONDARY;
                Association_rules_call MIN_CONFIDENCE_MINIMUM])
         MIN_CONFIDENCE_PRIMARY) = Return [faint_rule].
Proof.
  apply (result_of_last_pass
           (apriori_of sample_itemsets) (association_rules_of [faint_rule])
           sample_df MIN_CONFIDENCE_PRIMARY).
  - reflexivity.
  - discriminate.
Defined.

Lemma tight_retry_is_idle_witness :
  fst (derive_rules (association_rules_of [faint_rule]) sample_itemsets 0.002%float []) =
  match association_rules_of [faint_rule] sample_itemsets 0.002%float with
  | Return [] => association_rules_of [faint_rule] sample_itemsets MIN_CONFIDENCE_MINIMUM
  | first_pass => first_pass
  end.
Proof.
  apply (tight_retry_is_idle (association_rules_of [faint_rule]) sample_itemsets
           0.002%float []).
  - intros a b Hab H. simpl in H |- *.
    destruct (b <=? 0.0015)%float eqn:Eb; [|reflexivity].
    rewrite (FloatOrder.leb_trans a b _ Hab Eb) in H. discriminate H.
  - reflexivity.
Defined.

Lemma unknown_first_three_witness :
  answer_query insertion_order letters_df sample_rules "x, y, z, a"%string =
  ((if 3 <? List.length (cleaned_items "x, y, z, a"%string)
    then [Only_first_three (firstn 3 (cleaned_items "x, y, z, a"%string))] else []) ++
   [None_found;
    Available_items_include (sorted (firstn 10 (insertion_order (columns letters_df))))],
   Return tt).
Proof.
  apply (unknown_first_three insertion_order letters_df sample_rules "x, y, z, a"%string).
  - vm_compute. discriminate.
  - intros it Hit Hin. vm_compute in Hit.
    destruct Hit as [<- | [<- | [<- | []]]]; simpl in Hin; intuition discriminate.
Defined.

Lemma loop_finishes_at_first_request_witness :
  serve_loop insertion_order 5 letters_df sample_rules sample_session 0 =
  if 2 <? 5
  then (iterations_output insertion_order letters_df sample_rules sample_session 3 0,
        Finished)
  else (iterations_output insertion_order letters_df sample_rules sample_session 5 0,
        Out_of_fuel).
Proof.
  apply (loop_finishes_at_first_request insertion_order letters_df sample_rules
           sample_session 2 0 5).
  - intros j Hj [H | (text & H & Hin)];
      destruct j as [|[|j]]; try lia; simpl in H; try discriminate H;
      injection H as <-; vm_compute in Hin; intuition discriminate.
  - right. exists " Quit "%string. split; [reflexivity | vm_compute; tauto].
Defined.

Lemma end_of_input_never_ends_witness :
  serve_loop insertion_order 3 letters_df sample_rules closed_stdin 0 =
  (List.concat (repeat eof_messages 3), Out_of_fuel).
Proof.
  apply (end_of_input_never_ends insertion_order letters_df sample_rules
           closed_stdin 3 0).
  intros j. reflexivity.
Defined.

Lemma well_formed_rules_no_error_witness :
  ~ In (Error_occurred "IndexError")
       (fst (serve insertion_order letters_df sample_rules (Line "a, b"%string))).
Proof.
  apply (well_formed_rules_no_error insertion_order letters_df sample_rules
           "a, b"%string "IndexError"%string).
  rules_wf.
Defined.

(** With a row whose consequent is empty the same line does print one. *)
Example hollow_rule_error :
  fst (serve insertion_order letters_df [hollow_rule] (Line "a"%string)) =
  [Enter_items; Error_occurred "IndexError"; Please_try_again].
Proof. reflexivity. Qed.

Lemma main_recommends_generated_consequents_witness :
  "b"%string <> EmptyString /\
  exists df rules r,
    fst (load_groceries_data (Return sample_baskets) letters_encode []) =
      Return (Some df) /\
    fst (generate_association_rules
           (apriori_of sample_itemsets) (association_rules_of sample_rules) df
           MIN_CONFIDENCE_PRIMARY []) = Return rules /\
    rules <> [] /\
    In r rules /\ hd_error (consequents r) = Some "b"%string /\
    forall a, In a (antecedents r) -> In a (columns df).
Proof.
  apply (main_recommends_generated_consequents insertion_order
           (Return sample_baskets) letters_encode
           (apriori_of sample_itemsets) (association_rules_of sample_rules)
           sample_session 10 "b"%string).
  vm_compute. tauto.
Defined.

Lemma fallback_uses_first_item_only_witness :
  fst (find_best_recommendation ["a"; "b"]%string sample_rules []) =
  fst (find_best_recommendation ["a"; "z"; "c"]%string sample_rules []).
Proof.
  apply (fallback_uses_first_item_only sample_rules "a"%string
           ["b"]%string ["z"; "c"]%string [] []).
  - apply no_rule_matches_check. reflexivity.
  - apply no_rule_matches_check. reflexivity.
Defined.

(** The default run on a frame whose only rules have a confidence of just
    under one in a hundred: the pass at 0.01 finds nothing, the retry at
    0.005 finds both rules, and no third pass is made. *)
Example default_run_escalates_once :
  computed_association_rules scarce_pair_itemsets MIN_CONFIDENCE_PRIMARY = Return [] /\
  (exists bread_milk milk_bread,
      derive_rules computed_association_rules scarce_pair_itemsets
        MIN_CONFIDENCE_PRIMARY [] =
      (Return [bread_milk; milk_bread],
       [Association_rules_call MIN_CONFIDENCE_PRIMARY;
        Association_rules_call MIN_CONFIDENCE_SECONDARY]) /\
      antecedents bread_milk = ["bread"]%string /\
      consequents bread_milk = ["milk"]%string /\
      antecedents milk_bread = ["milk"]%string /\
      consequents milk_bread = ["bread"]%string).
Proof.
  split; [reflexivity|]. eexists. eexists.
  split; [reflexivity|]. repeat split; reflexivity.
Qed.

Lemma confidence_escalation_witness :
  exists passes,
    snd (derive_rules computed_association_rules scarce_pair_itemsets
           MIN_CONFIDENCE_PRIMARY []) =
      [] ++ map Association_rules_call passes /\
    passes = firstn (List.length passes)
               [MIN_CONFIDENCE_PRIMARY; MIN_CONFIDENCE_SECONDARY;
                MIN_CONFIDENCE_MINIMUM] /\
    1 <= List.length passes <= 3 /\
    strictly_decreasing passes = true /\
    (2 <= List.length passes <->
       computed_association_rules scarce_pair_itemsets MIN_CONFIDENCE_PRIMARY
       = Return []) /\
    (3 <= List.length passes <->
       computed_association_rules scarce_pair_itemsets MIN_CONFIDENCE_PRIMARY
       = Return [] /\
       computed_association_rules scarce_pair_itemsets MIN_CONFIDENCE_SECONDARY
       = Return []) /\
    fst (derive_rules computed_association_rules scarce_pair_itemsets
           MIN_CONFIDENCE_PRIMARY []) =
      computed_association_rules scarce_pair_itemsets
        (last passes MIN_CONFIDENCE_PRIMARY).
Proof.
  apply (confidence_escalation computed_association_rules scarce_pair_itemsets
           MIN_CONFIDENCE_PRIMARY []).
  reflexivity.
Defined.

(** C5 as stated fails at [min_confidence = 0.002] on a frame without any
    rule (two items, each frequent, never bought together): the pass at
    0.002 returns no rule and the retry is made at 0.005, which is not a
    looser threshold than 0.002. *)
Lemma retry_not_looser_below_secondary :
  computed_association_rules single_itemsets 0.002%float = Return [] /\
  generate_association_rules
    (apriori_of single_itemsets) computed_association_rules
    disjoint_df 0.002%float [] =
  (Return [],
   [Apriori_call MIN_SUPPORT_PRIMARY;
    Association_rules_call 0.002%float;
    Association_rules_call MIN_CONFIDENCE_SECONDARY;
    Association_rules_call MIN_CONFIDENCE_MINIMUM]) /\
  (MIN_CONFIDENCE_SECONDARY <? 0.002)%float = false /\
  ~ (forall (association_rules : list itemset_row -> float -> result (list rule))
            (fi : list itemset_row) (c : float),
        association_rules fi c = Return [] ->
        exists t rest,
          confidence_passes (snd (derive_rules association_rules fi c [])) =
            c :: t :: rest /\
          (t <? c)%float = true).
Proof.
  split; [reflexivity|]. split; [reflexivity|]. split; [reflexivity|].
  intros H.
  destruct (H computed_association_rules single_itemsets 0.002%float eq_refl)
    as (t & rest & E & Hlt).
  vm_compute in E. injection E as Et _. subst t.
  vm_compute in Hlt. discriminate Hlt.
Qed.
